(** * timid-github: the command runner, the clone action and the status
      reconciliation of [timid_github.py]

    The Python code is embedded shallowly.  Effects (subprocesses, sleeps,
    the filesystem, the pull-request API, mutation of [ctxt.environment] and
    of the extension object) are threaded through a state-and-exception
    monad; everything that lives outside the repository (the subprocess,
    the filesystem, [json.loads], [shlex_quote], the API client, timid's
    [StepResult]) is a [Variable] of the enclosing section. *)

From Stdlib Require Import ZArith List String Ascii Bool Lia DecimalString.
From Stdlib Require DecimalPos.
Import ListNotations.

Set Warnings "-register-all,-notation-for-abbreviation".

Local Open Scope string_scope.
Local Open Scope list_scope.
Local Open Scope Z_scope.

(** ** Python exceptions and the effect monad *)

Inductive Exn : Type :=
| GitException (msg : string)
| UnboundLocalError (name : string)
| TypeError
| OSError (errno : Z)
| ApiError (descr : string).

(** A computation over a mutable state [S]: the state survives an exception,
    as the mutations of a Python object do. *)
Definition M (S A : Type) : Type := S -> (Exn + A) * S.

Definition ret {S A} (a : A) : M S A := fun s => (inr a, s).

Definition raise {S A} (e : Exn) : M S A := fun s => (inl e, s).

Definition bind {S A B} (m : M S A) (k : A -> M S B) : M S B :=
  fun s =>
    match m s with
    | (inr a, s') => k a s'
    | (inl e, s') => (inl e, s')
    end.

(** [try: body / except Exception: handler]. *)
Definition try_except {S A} (body : M S A) (handler : Exn -> M S A) : M S A :=
  fun s =>
    match body s with
    | (inr a, s') => (inr a, s')
    | (inl e, s') => handler e s'
    end.

Definition gets {S A} (f : S -> A) : M S A := fun s => (inr (f s), s).

Definition modify {S} (f : S -> S) : M S unit := fun s => (inr tt, f s).

Declare Scope py_scope.
Delimit Scope py_scope with py.
Notation "x <- m ;; k" := (bind m (fun x => k))
  (at level 100, m at next level, right associativity) : py_scope.
Notation "m ;;; k" := (bind m (fun _ => k))
  (at level 100, right associativity) : py_scope.
Local Open Scope py_scope.

(** ** Strings and bytes *)

(** The double-quote character of the two message formats. *)
Definition dquote : string := String (ascii_of_nat 34) EmptyString.

(** [needle in hay] on byte strings. *)
Fixpoint bytes_in (needle hay : string) : bool :=
  String.prefix needle hay ||
  match hay with
  | EmptyString => false
  | String _ rest => bytes_in needle rest
  end.

(** ['%d' % n]. *)
Definition fmt_d (n : Z) : string := NilZero.string_of_int (Z.to_int n).

Definition SSH_ERROR : string :=
  "ssh_exchange_identification: Connection closed by remote host".

(** [os.path.join(a, b)] of [posixpath]. *)
Definition os_path_join (a b : string) : string :=
  if String.prefix "/" b then b
  else if (String.length a =? 0)%nat then a ++ b
  else match String.get (String.length a - 1) a with
       | Some "/"%char => a ++ b
       | _ => a ++ "/" ++ b
       end.

(** ** The environment of the command runner and of the clone action *)

(** What [child.communicate()] and [child.returncode] give. *)
Record Child : Type := mkChild
  { stdout : string; stderr : string; returncode : Z }.

(** The externally visible effects, in the order they happen. *)
Inductive Event : Type :=
| EvCall (cmd : list string)
| EvSleep (t : Z)
| EvRemove (path : string)
| EvRmtree (path : string).

(** [ctxt.environment]: its [cwd] field and the effects performed so far. *)
Record Env : Type := mkEnv { cwd : string; trace : list Event }.

Definition set_cwd (d : string) : M Env unit :=
  modify (fun e => mkEnv d (trace e)).

Definition emit (ev : Event) : M Env unit :=
  modify (fun e => mkEnv (cwd e) (trace e ++ [ev])).

Fixpoint count_calls (t : list Event) : nat :=
  match t with
  | [] => 0
  | EvCall _ :: t' => S (count_calls t')
  | _ :: t' => count_calls t'
  end.

Fixpoint sleeps_of (t : list Event) : list Z :=
  match t with
  | [] => []
  | EvSleep d :: t' => d :: sleeps_of t'
  | _ :: t' => sleeps_of t'
  end.

(** The file deletions and tree removals of a trace. *)
Fixpoint removals_of (t : list Event) : list Event :=
  match t with
  | [] => []
  | EvRemove p :: t' => EvRemove p :: removals_of t'
  | EvRmtree p :: t' => EvRmtree p :: removals_of t'
  | _ :: t' => removals_of t'
  end.

Section Runner.

(** The outcome of the [n]-th subprocess execution of the run (counted
    from 0) for the command line it is given. *)
Variable spawn : nat -> list string -> Child.

(** [six.moves.shlex_quote]. *)
Variable shlex_quote : string -> string.

(** [ctxt.environment.call(cmd, ...)] followed by [child.communicate()]. *)
Definition environment_call (cmd : list string) : M Env Child :=
  fun e =>
    (inr (spawn (count_calls (trace e)) cmd),
     mkEnv (cwd e) (trace e ++ [EvCall cmd])).

Definition time_sleep (t : Z) : M Env unit := emit (EvSleep t).

(** Must the command be tried again? *)
Definition ssh_failed (c : Child) : bool :=
  negb (returncode c =? 0) &&
  (bytes_in SSH_ERROR (stdout c) || bytes_in SSH_ERROR (stderr c)).

(** The [while num_tries < ssh_retries] loop of [_git].  [child] is the
    Python variable of that name, [None] while it is unbound; [stdout] and
    [stderr] are bound together with it.  [fuel] bounds the iterations; see
    [git_loop_fuel]. *)
Fixpoint git_loop (fuel : nat) (cmd : list string) (ssh_retries : Z)
    (sleep_time num_tries : Z) (child : option Child)
    : M Env (option Child) :=
  match fuel with
  | O => ret child
  | S fuel' =>
      if num_tries <? ssh_retries then
        let num_tries := num_tries + 1 in
        sleep_time' <-
          (if 1 <? num_tries
           then time_sleep sleep_time ;;; ret (Z.shiftl sleep_time 1)
           else ret sleep_time) ;;
        c <- environment_call cmd ;;
        if ssh_failed c
        then git_loop fuel' cmd ssh_retries sleep_time' num_tries (Some c)
        else ret (Some c)
      else ret child
  end.

Definition git_command (cmd : list string) : string :=
  String.concat " " (map shlex_quote cmd).

Definition git_message (cmd : list string) (rc : Z) : string :=
  "Git command " ++ dquote ++ git_command cmd ++ dquote ++
  " returned " ++ fmt_d rc.

(** [_git(ctxt, *args, ssh_retries=.., do_raise=..)]. *)
Definition _git (args : list string) (ssh_retries : Z) (do_raise : bool)
    : M Env string :=
  let cmd := "git" :: args in
  child <- git_loop (Z.to_nat ssh_retries) cmd ssh_retries 1 0 None ;;
  match child with
  | None =>
      if do_raise then raise (UnboundLocalError "child")
      else raise (UnboundLocalError "stdout")
  | Some c =>
      if do_raise && negb (returncode c =? 0)
      then raise (GitException (git_message cmd (returncode c)))
      else ret (stdout c)
  end.

End Runner.

(** ** Python values and the extension object *)

(** The values [json.loads] produces; also the values the status fields
    hold.  A float keeps only what the code looks at: whether it is zero. *)
Inductive PyVal : Type :=
| PyNone
| PyBool (b : bool)
| PyInt (n : Z)
| PyFloat (is_zero : bool) (literal : string)
| PyStr (s : string)
| PyList (items : list PyVal)
| PyDict (items : list (string * PyVal)).

(** Truth value of a Python value, as [if v:] and [v or w] take it. *)
Definition truthy (v : PyVal) : bool :=
  match v with
  | PyNone => false
  | PyBool b => b
  | PyInt n => negb (n =? 0)
  | PyFloat z _ => negb z
  | PyStr s => negb (String.eqb s EmptyString)
  | PyList l => match l with [] => false | _ => true end
  | PyDict d => match d with [] => false | _ => true end
  end.

(** An optional string argument ([None] or a [str]). *)
Definition py_of_opt (o : option string) : PyVal :=
  match o with
  | None => PyNone
  | Some s => PyStr s
  end.

Definition opt_truthy (o : option string) : bool := truthy (py_of_opt o).

(** The dictionary with the keys "status", "text" and "url". *)
Record StatusDict : Type := mkStatus
  { status : PyVal; text : PyVal; url : PyVal }.

(** The fields of a [GithubExtension] the modelled methods read or write
    (the API handle, the pull request and the commit are opaque). *)
Record GithubExtension : Type := mkGhe
  { status_url : option string;
    final_status : StatusDict;
    repo_name : string;
    repo_url : string;
    repo_branch : string;
    change_url : string;
    change_branch : string;
    last_status : option StatusDict }.

(** [GithubExtension.__init__]. *)
Definition GithubExtension_init (status_url : option string)
    (final_status : StatusDict)
    (repo_name repo_url repo_branch change_url change_branch : string)
    : GithubExtension :=
  mkGhe status_url final_status repo_name repo_url repo_branch
        change_url change_branch None.

(** ** The clone action *)

(** timid's step states; [OtherState] is any value that is none of the four
    constants, kept by its [str]. *)
Inductive State : Type :=
| SKIPPED
| SUCCESS
| FAILURE
| ERROR
| OtherState (repr : string).

(** [timid.StepResult], the fields the code reads. *)
Record StepResult : Type := mkStepResult
  { state : State; msg : option string }.

(** What [os.lstat] answers: the [st_mode] of the entry, or an [OSError]. *)
Inductive LstatResult : Type :=
| LstatMode (st_mode : Z)
| LstatError (errno : Z).

Definition ENOENT : Z := 2.

(** [stat.S_ISDIR]: [S_IFMT(mode) == S_IFDIR]. *)
Definition S_ISDIR (mode : Z) : bool :=
  Z.land mode 61440 =? 16384.

Section CloneAction.

Variable spawn : nat -> list string -> Child.
Variable shlex_quote : string -> string.

(** The filesystem as the action finds it: the answers of [os.lstat] and
    [os.path.isdir], and whether [os.remove] and [shutil.rmtree] fail. *)
Variable os_lstat : string -> LstatResult.
Variable os_path_isdir : string -> bool.
Variable os_remove_error : string -> option Exn.
Variable shutil_rmtree_error : string -> option Exn.

(** [self.ghe]. *)
Variable ghe : GithubExtension.

Let git := _git spawn shlex_quote.

Definition os_remove (path : string) : M Env unit :=
  emit (EvRemove path) ;;;
  match os_remove_error path with
  | Some e => raise e
  | None => ret tt
  end.

Definition shutil_rmtree (path : string) : M Env unit :=
  emit (EvRmtree path) ;;;
  match shutil_rmtree_error path with
  | Some e => raise e
  | None => ret tt
  end.

(** [CloneAction._update]. *)
Definition _update : M Env StepResult :=
  git ["remote"; "set-url"; "origin"; repo_url ghe] 1 true ;;;
  git ["rebase"; "--abort"] 1 false ;;;
  git ["checkout"; "-f"; repo_branch ghe] 1 true ;;;
  git ["reset"; "--hard"; ("origin/" ++ repo_branch ghe)%string] 1 true ;;;
  git ["clean"; "-fdx"] 1 true ;;;
  git ["fetch"; "origin"; repo_branch ghe] 5 true ;;;
  git ["checkout"; repo_branch ghe] 1 true ;;;
  ret (mkStepResult SUCCESS None).

(** [CloneAction._clone]. *)
Definition _clone (work_dir target_dir : string) : M Env StepResult :=
  git ["clone"; repo_url ghe; target_dir] 5 true ;;;
  try_except
    (set_cwd target_dir ;;; _update)
    (fun e => set_cwd work_dir ;;; raise e).

(** [CloneAction.__call__]. *)
Definition CloneAction_call : M Env StepResult :=
  work_dir <- gets cwd ;;
  let repo_dir := os_path_join work_dir (repo_name ghe) in
  match os_lstat repo_dir with
  | LstatError errno =>
      if negb (errno =? ENOENT) then raise (OSError errno)
      else _clone work_dir repo_dir
  | LstatMode st_mode =>
      if negb (S_ISDIR st_mode) then
        os_remove repo_dir ;;;
        _clone work_dir repo_dir
      else
        updated <-
          (if os_path_isdir (os_path_join repo_dir ".git")
           then try_except
                  (set_cwd repo_dir ;;; r <- _update ;; ret (Some r))
                  (fun _ => set_cwd work_dir ;;; ret None)
           else ret None) ;;
        match updated with
        | Some r => ret r
        | None =>
            shutil_rmtree repo_dir ;;;
            _clone work_dir repo_dir
        end
  end.

End CloneAction.

(** ** Building the final status at activation *)

(** The command-line arguments the final status is built from. *)
Record Args : Type := mkArgs
  { github_status_url : option string;
    github_override : option string;
    github_override_status : option string;
    github_override_text : option string;
    github_override_url : option string }.

Fixpoint dict_get (d : list (string * PyVal)) (key : string) : option PyVal :=
  match d with
  | [] => None
  | (k, v) :: d' => if String.eqb k key then Some v else dict_get d' key
  end.

(** [key == item] for a string [key]. *)
Definition str_equals (key : string) (item : PyVal) : bool :=
  match item with
  | PyStr s => String.eqb key s
  | _ => false
  end.

(** [if key in override_raw: final = override_raw[key]] for one key:
    [inr (Some v)] replaces the value, [inr None] leaves it, and a value that
    is no dictionary raises [TypeError] when it cannot be searched or cannot
    be indexed by a string. *)
Definition override_lookup (override_raw : PyVal) (key : string)
    : Exn + option PyVal :=
  match override_raw with
  | PyDict d => inr (dict_get d key)
  | PyList l => if existsb (str_equals key) l then inl TypeError else inr None
  | PyStr s => if bytes_in key s then inl TypeError else inr None
  | _ => inl TypeError
  end.

Definition or_default (o : option PyVal) (default : PyVal) : PyVal :=
  match o with
  | Some v => v
  | None => default
  end.

Section Activate.

(** [json.loads]; [None] stands for the [ValueError] of a malformed
    document. *)
Variable json_loads : string -> option PyVal.

(** The loop over the keys of [final_status] inside the [try]. *)
Definition apply_override (override_raw : PyVal) (fs : StatusDict)
    : Exn + StatusDict :=
  match override_lookup override_raw "status",
        override_lookup override_raw "text",
        override_lookup override_raw "url" with
  | inr s, inr t, inr u =>
      inr (mkStatus (or_default s (status fs)) (or_default t (text fs))
                    (or_default u (url fs)))
  | inl e, _, _ => inl e
  | _, inl e, _ => inl e
  | _, _, inl e => inl e
  end.

(** The part of [GithubExtension.activate] that sets up [final_status]. *)
Definition activate_final_status (args : Args) : Exn + StatusDict :=
  let final_status :=
    mkStatus (PyStr "success") (PyStr "Tests passed!")
             (py_of_opt (github_status_url args)) in
  let overridden :=
    match github_override args with
    | Some document =>
        if truthy (PyStr document) then
          match json_loads document with
          | Some override_raw => apply_override override_raw final_status
          | None => inr final_status
          end
        else inr final_status
    | None => inr final_status
    end in
  match overridden with
  | inl e => inl e
  | inr fs =>
      let fs :=
        if opt_truthy (github_override_status args)
        then mkStatus (py_of_opt (github_override_status args))
                      (text fs) (url fs)
        else fs in
      let fs :=
        if opt_truthy (github_override_text args)
        then mkStatus (status fs) (py_of_opt (github_override_text args))
                      (url fs)
        else fs in
      let fs :=
        if opt_truthy (github_override_url args)
        then mkStatus (status fs) (text fs)
                      (py_of_opt (github_override_url args))
        else fs in
      inr fs
  end.

End Activate.

(** ** Status reports *)

(** An optional argument of [create_status]: [github.GithubObject.NotSet]
    or a value. *)
Inductive Optional : Type :=
| NotSet
| Given (v : PyVal).

(** [v or github.GithubObject.NotSet]. *)
Definition or_NotSet (v : PyVal) : Optional :=
  if truthy v then Given v else NotSet.

(** The arguments of one [last_commit.create_status(...)] call. *)
Record StatusCall : Type := mkCall
  { call_state : PyVal; call_target_url : Optional;
    call_description : Optional }.

(** A call made to the API together with its outcome ([None]: it
    returned; [Some e]: it raised [e]). *)
Record ApiEvent : Type := mkApiEvent
  { request : StatusCall; failure : option Exn }.

(** The extension object and the calls made on the pull request's last
    commit so far. *)
Record GhState : Type := mkGh
  { self : GithubExtension; api_log : list ApiEvent }.

(** How the report ([status], [text], [url]) goes to the API. *)
Definition wire (d : StatusDict) : StatusCall :=
  mkCall (status d) (or_NotSet (url d)) (or_NotSet (text d)).

(** The requests that went through, oldest first. *)
Definition transmitted (log : list ApiEvent) : list StatusCall :=
  map request (filter (fun ev => match failure ev with
                                 | None => true
                                 | Some _ => false
                                 end) log).

Definition requests (log : list ApiEvent) : list StatusCall :=
  map request log.

(** [self.last_status = d]. *)
Definition record_status (g : GithubExtension) (d : StatusDict)
    : GithubExtension :=
  mkGhe (status_url g) (final_status g) (repo_name g) (repo_url g)
        (repo_branch g) (change_url g) (change_branch g) (Some d).

Definition last_opt {A} (l : list A) : option A :=
  match rev l with
  | [] => None
  | a :: _ => Some a
  end.

(** The last-status field mirrors the last request that went through:
    sent to the API, it is that request; it is unset while none did. *)
Definition mirrors (s : GhState) : Prop :=
  option_map wire (last_status (self s)) = last_opt (transmitted (api_log s)).

(** The result [r] of a callback run from [s] that made the report [d]:
    the request was made; when it went through, the field holds [d];
    when it raised, the exception leaves the callback and the object is as
    before. *)
Definition report_made
    (create_status : list ApiEvent -> StatusCall -> option Exn)
    (d : StatusDict) (s : GhState) (r : (Exn + unit) * GhState) : Prop :=
  api_log (snd r) =
    api_log s ++ [mkApiEvent (wire d) (create_status (api_log s) (wire d))] /\
  match create_status (api_log s) (wire d) with
  | None => fst r = inr tt /\ self (snd r) = record_status (self s) d
  | Some x => fst r = inl x /\ self (snd r) = self s
  end.

(** [timid.Step], the field the code reads. *)
Record Step : Type := mkStep { name : string }.

(** The [result] handed to [finalize]: [None], an [Exception] instance, or
    any other value; the last two are kept by their [str]. *)
Inductive Result : Type :=
| ResNone
| ResException (str : string)
| ResOther (str : string).

Section Extension.

(** The pull-request API: whether [create_status] raises, given the calls
    made before. *)
Variable create_status : list ApiEvent -> StatusCall -> option Exn.

(** The truth value of a [timid.StepResult] and the [str] of a state. *)
Variable result_bool : StepResult -> bool.
Variable state_str : State -> string.

Definition last_commit_create_status (c : StatusCall) : M GhState unit :=
  fun s =>
    let outcome := create_status (api_log s) c in
    let s' := mkGh (self s) (api_log s ++ [mkApiEvent c outcome]) in
    match outcome with
    | Some e => (inl e, s')
    | None => (inr tt, s')
    end.

Definition set_last_status (d : StatusDict) : M GhState unit :=
  modify (fun s => mkGh (record_status (self s) d) (api_log s)).

(** [GithubExtension._set_status]. *)
Definition _set_status (status text url : PyVal) : M GhState unit :=
  last_commit_create_status
    (mkCall status (or_NotSet url) (or_NotSet text)) ;;;
  set_last_status (mkStatus status text url).

(** [GithubExtension.pre_step]. *)
Definition pre_step (step : Step) (idx : nat) : M GhState PyVal :=
  su <- gets (fun s => status_url (self s)) ;;
  _set_status (PyStr "pending") (PyStr (name step)) (py_of_opt su) ;;;
  ret PyNone.

(** [GithubExtension.post_step]. *)
Definition post_step (step : Step) (idx : nat) (result : StepResult)
    : M GhState unit :=
  if negb (result_bool result) then
    let msg := msg result in
    let '(status, msg) :=
      match state result with
      | FAILURE =>
          ("failure",
           if negb (opt_truthy msg)
           then Some ("Failed: " ++ name step)%string
           else msg)
      | st =>
          ("error",
           if negb (opt_truthy msg) then
             match st with
             | ERROR => Some ("Error: " ++ name step)%string
             | _ => Some ("Unknown timid state " ++ dquote ++ state_str st ++
                          dquote ++ " during step: " ++ name step)%string
             end
           else msg)
      end in
    su <- gets (fun s => status_url (self s)) ;;
    _set_status (PyStr status) (py_of_opt msg) (py_of_opt su)
  else ret tt.

(** [GithubExtension.finalize]. *)
Definition finalize (result : Result) : M GhState Result :=
  match result with
  | ResNone =>
      fs <- gets (fun s => final_status (self s)) ;;
      _set_status (status fs) (text fs) (url fs)
  | ResException str =>
      su <- gets (fun s => status_url (self s)) ;;
      _set_status (PyStr "error")
        (PyStr ("Exception while running timid: " ++ str)) (py_of_opt su)
  | ResOther str =>
      ls <- gets (fun s => last_status (self s)) ;;
      match ls with
      | Some d =>
          if str_equals "pending" (status d) then
            su <- gets (fun s => status_url (self s)) ;;
            _set_status (PyStr "failure")
              (PyStr ("Testing failed: " ++ str)) (py_of_opt su)
          else ret tt
      | None => ret tt
      end
  end ;;;
  ret result.

(** The lifecycle callbacks the test runner makes on the extension. *)
Inductive Callback : Type :=
| CbPreStep (step : Step) (idx : nat)
| CbPostStep (step : Step) (idx : nat) (result : StepResult)
| CbFinalize (result : Result).

Definition run_callback (cb : Callback) : M GhState unit :=
  match cb with
  | CbPreStep step idx => pre_step step idx ;;; ret tt
  | CbPostStep step idx result => post_step step idx result
  | CbFinalize result => finalize result ;;; ret tt
  end.

(** A run: the callbacks in order, up to the first exception. *)
Fixpoint run_callbacks (cbs : list Callback) : M GhState unit :=
  match cbs with
  | [] => ret tt
  | cb :: rest => run_callback cb ;;; run_callbacks rest
  end.

End Extension.

(** ** The trace the retry loop is expected to leave *)

(** The events of [n] retries of [cmd], the first one after a sleep of
    [sleep_time]: each retry is a sleep followed by the subprocess. *)
Fixpoint retry_events (cmd : list string) (sleep_time : Z) (n : nat)
    : list Event :=
  match n with
  | O => []
  | S n' =>
      EvSleep sleep_time :: EvCall cmd ::
      retry_events cmd (Z.shiftl sleep_time 1) n'
  end.

(** The events of [n] attempts at [cmd] ([n >= 1]): the first execution and
    then [n - 1] retries, backing off from 1. *)
Definition attempt_events (cmd : list string) (n : nat) : list Event :=
  EvCall cmd :: retry_events cmd 1 (n - 1).

(** ** Predicates on traces and computations *)

(** [e'] continues [e] with events that all satisfy [P]. *)
Definition extends_by (P : Event -> Prop) (e e' : Env) : Prop :=
  exists new, trace e' = trace e ++ new /\ Forall P new.

(** Every run of [m] only adds events that satisfy [P]. *)
Definition emits {A} (P : Event -> Prop) (m : M Env A) : Prop :=
  forall e, extends_by P e (snd (m e)).

(** [m] leaves [ctxt.environment.cwd] alone. *)
Definition keeps_cwd {A} (m : M Env A) : Prop :=
  forall e, cwd (snd (m e)) = cwd e.

(** An event of running the command line [cmd]: the subprocess or a sleep
    between two tries. *)
Definition runs_only (cmd : list string) (ev : Event) : Prop :=
  ev = EvCall cmd \/ exists t, ev = EvSleep t.

(** A subprocess or a sleep, but not the execution of [git <sub> ...]. *)
Definition not_subcommand (sub : string) (ev : Event) : Prop :=
  match ev with
  | EvCall (_ :: s :: _) => s <> sub
  | EvCall _ => True
  | EvSleep _ => True
  | EvRemove _ => False
  | EvRmtree _ => False
  end.

(** Neither a file deletion nor a tree removal. *)
Definition no_removal (ev : Event) : Prop :=
  match ev with
  | EvRemove _ => False
  | EvRmtree _ => False
  | _ => True
  end.

(** ** Sample runs *)

(** A shell quoting that leaves a word alone, as [shlex_quote] does for
    words of safe characters. *)
Definition plain_quote (word : string) : string := word.

Definition work_env : Env := mkEnv "/work/dir" [].

(** Four executions closed by the remote host, the marker in turn on
    standard output and on standard error, then a success. *)
Definition flaky_spawn (n : nat) (cmd : list string) : Child :=
  if (n <? 4)%nat then
    if Nat.even n then mkChild SSH_ERROR "stderr" 1
    else mkChild "stdout" SSH_ERROR 1
  else mkChild "final success" "stderr" 0.

(** Every execution is closed by the remote host. *)
Definition dead_spawn (n : nat) (cmd : list string) : Child :=
  mkChild SSH_ERROR "stderr" 255.

(** Every execution fails for another reason. *)
Definition failing_spawn (n : nat) (cmd : list string) : Child :=
  mkChild "stdout" "fatal: not a git repository" 128.

Definition ok_spawn (n : nat) (cmd : list string) : Child :=
  mkChild "stdout" "stderr" 0.

(** The first execution fails, the later ones succeed. *)
Definition stumbling_spawn (n : nat) (cmd : list string) : Child :=
  if (n =? 0)%nat then failing_spawn n cmd else ok_spawn n cmd.

Definition lstat_absent (path : string) : LstatResult := LstatError ENOENT.
Definition lstat_file (path : string) : LstatResult := LstatMode 33188.
Definition lstat_dir (path : string) : LstatResult := LstatMode 16877.
Definition isdir_yes (path : string) : bool := true.
Definition isdir_no (path : string) : bool := false.
Definition removal_works (path : string) : option Exn := None.

Definition default_status : StatusDict :=
  mkStatus (PyStr "success") (PyStr "Tests passed!") PyNone.

Definition sample_ghe : GithubExtension :=
  GithubExtension_init (Some "https://ci.example.com/run") default_status
    "repo" "repo://url" "branch" "change://url" "change-branch".

Definition fresh_state : GhState := mkGh sample_ghe [].

Definition api_accepts (log : list ApiEvent) (c : StatusCall) : option Exn :=
  None.

(** The truth value the tests rely on: success and skipped are true. *)
Definition sample_result_bool (r : StepResult) : bool :=
  match state r with
  | SUCCESS => true
  | SKIPPED => true
  | _ => false
  end.

Definition sample_state_str (s : State) : string :=
  match s with
  | SKIPPED => "skipped"
  | SUCCESS => "success"
  | FAILURE => "failure"
  | ERROR => "error"
  | OtherState repr => repr
  end.

Definition quoted (s : string) : string := dquote ++ s ++ dquote.

(** The text of the combined override document of the precedence test. *)
Definition override_document : string :=
  "{" ++ quoted "status" ++ ": " ++ quoted "override" ++ ", " ++
  quoted "text" ++ ": " ++ quoted "t" ++ ", " ++
  quoted "url" ++ ": " ++ quoted "u" ++ "}".

(** A loader that knows this one document. *)
Definition sample_json_loads (document : string) : option PyVal :=
  if String.eqb document override_document
  then Some (PyDict [("status", PyStr "override"); ("text", PyStr "t");
                     ("url", PyStr "u")])
  else None.

Definition sample_args : Args :=
  mkArgs None (Some override_document) (Some "status2") None None.

(** ** The merge action *)

Section MergeAction.

Variable spawn : nat -> list string -> Child.
Variable shlex_quote : string -> string.

(** [self.ghe] and [self.ghe.pull.user.login]. *)
Variable ghe : GithubExtension.
Variable pull_user_login : string.

Let git := _git spawn shlex_quote.

(** [MergeAction.__call__]. *)
Definition MergeAction_call : M Env StepResult :=
  let local_branch := (pull_user_login ++ "-" ++ change_branch ghe)%string in
  git ["branch"; "-D"; local_branch] 1 false ;;;
  git ["checkout"; "-b"; local_branch; repo_branch ghe] 1 true ;;;
  git ["pull"; change_url ghe; change_branch ghe] 1 true ;;;
  git ["checkout"; repo_branch ghe] 1 true ;;;
  git ["merge"; local_branch] 1 true ;;;
  ret (mkStepResult SUCCESS None).

End MergeAction.

(** The command lines of [MergeAction.__call__], in order. *)
Definition merge_commands (ghe : GithubExtension) (pull_user_login : string)
    : list (list string) :=
  let local_branch := (pull_user_login ++ "-" ++ change_branch ghe)%string in
  [["git"; "branch"; "-D"; local_branch];
   ["git"; "checkout"; "-b"; local_branch; repo_branch ghe];
   ["git"; "pull"; change_url ghe; change_branch ghe];
   ["git"; "checkout"; repo_branch ghe];
   ["git"; "merge"; local_branch]].

(** The command lines of [CloneAction._update], in order. *)
Definition update_commands (ghe : GithubExtension) : list (list string) :=
  [["git"; "remote"; "set-url"; "origin"; repo_url ghe];
   ["git"; "rebase"; "--abort"];
   ["git"; "checkout"; "-f"; repo_branch ghe];
   ["git"; "reset"; "--hard"; ("origin/" ++ repo_branch ghe)%string];
   ["git"; "clean"; "-fdx"];
   ["git"; "fetch"; "origin"; repo_branch ghe];
   ["git"; "checkout"; repo_branch ghe]].

(** What [_git] answers once the loop has ended with the execution [c]:
    the lines after the loop. *)
Definition git_outcome (shlex_quote : string -> string) (cmd : list string)
    (do_raise : bool) (c : Child) : Exn + string :=
  if do_raise && negb (returncode c =? 0)
  then inl (GitException (git_message shlex_quote cmd (returncode c)))
  else inr (stdout c).

(** The time slept in a trace. *)
Definition total_sleep (t : list Event) : Z :=
  fold_right Z.add 0 (sleeps_of t).

(** [m] raises nothing but exceptions that satisfy [P]. *)
Definition raises_only {S A} (P : Exn -> Prop) (m : M S A) : Prop :=
  forall s x, fst (m s) = inl x -> P x.

(** [x] is the exception [_git] raises for [cmd] when it exited with a code
    other than 0. *)
Definition failure_of (shlex_quote : string -> string) (cmd : list string)
    (x : Exn) : Prop :=
  exists rc, rc <> 0 /\ x = GitException (git_message shlex_quote cmd rc).

(** [x] is the failure of a command of [_update] other than the second,
    [git rebase --abort]. *)
Definition update_failure (shlex_quote : string -> string)
    (ghe : GithubExtension) (x : Exn) : Prop :=
  exists i, In i [0; 2; 3; 4; 5; 6]%nat /\
    failure_of shlex_quote (nth i (update_commands ghe) []) x.

Definition is_git_exception (x : Exn) : Prop :=
  exists message, x = GitException message.

(** ** URL selection *)

(** The URLs of a [github.Repository.Repository] the code can select. *)
Record Repository : Type := mkRepository
  { ssh_url : string; git_url : string; clone_url : string }.

Definition URL_ATTR : list (string * string) :=
  [("ssh", "ssh_url"); ("git", "git_url"); ("https", "clone_url")].

Fixpoint table_get (table : list (string * string)) (key : string)
    : option string :=
  match table with
  | [] => None
  | (k, v) :: table' => if String.eqb k key then Some v else table_get table' key
  end.

(** [getattr(repo_obj, attr)]; [None] stands for [AttributeError]. *)
Definition getattr (repo_obj : Repository) (attr : string) : option string :=
  if String.eqb attr "ssh_url" then Some (ssh_url repo_obj)
  else if String.eqb attr "git_url" then Some (git_url repo_obj)
  else if String.eqb attr "clone_url" then Some (clone_url repo_obj)
  else None.

(** [_select_url]; [None] stands for an [AttributeError] of [getattr]. *)
Definition _select_url (repo_url : string) (repo_obj : Repository)
    : option string :=
  match table_get URL_ATTR repo_url with
  | Some attr => getattr repo_obj attr
  | None => Some repo_url
  end.

(** The two selections of [activate]: the base URL and the change URL,
    the latter by [args.github_change_repo or args.github_repo]. *)
Definition activate_urls (github_repo : string)
    (github_change_repo : option string) (base_repo head_repo : Repository)
    : option string * option string :=
  (_select_url github_repo base_repo,
   _select_url (if opt_truthy github_change_repo
                then match github_change_repo with
                     | Some r => r
                     | None => github_repo
                     end
                else github_repo)
               head_repo).

(** ** The pull request designation *)

(** [s.partition(sep)] for a separator of one character. *)
Fixpoint str_partition (sep : ascii) (s : string)
    : string * string * string :=
  match s with
  | EmptyString => (EmptyString, EmptyString, EmptyString)
  | String c rest =>
      if Ascii.eqb c sep then (EmptyString, String sep EmptyString, rest)
      else let '(head, middle, tail) := str_partition sep rest in
           (String c head, middle, tail)
  end.

Definition is_digit_char (c : ascii) : bool :=
  ((48 <=? nat_of_ascii c) && (nat_of_ascii c <=? 57))%nat.

Fixpoint all_digits (s : string) : bool :=
  match s with
  | EmptyString => true
  | String c rest => is_digit_char c && all_digits rest
  end.

(** [s.isdigit()] on a byte string. *)
Definition isdigit (s : string) : bool :=
  negb (String.eqb s EmptyString) && all_digits s.

(** [int(s)] for a string of decimal digits; [None] stands for
    [ValueError]. *)
Definition py_int (s : string) : option Z :=
  option_map Z.of_uint (NilZero.uint_of_string s).

(** What [activate] makes of [args.github_pull]: nothing (it returns
    [None]), raw data to wrap, a pull request to look up, or the
    [ValueError] of [int]. *)
Inductive Designation : Type :=
| Inactive
| RawPull (pull_raw : PyVal)
| LookupPull (repo : string) (number : Z)
| IntValueError.

Section Designate.

Variable json_loads : string -> option PyVal.

(** The part of [GithubExtension.activate] that reads
    [args.github_pull], up to the lookup. *)
Definition pull_designation (github_user : string)
    (github_pull : option string) : Designation :=
  match github_pull with
  | None => Inactive
  | Some designation =>
      if negb (truthy (PyStr designation)) then Inactive
      else
        match json_loads designation with
        | Some pull_raw => RawPull pull_raw
        | None =>
            let '(repo, _sep, number) := str_partition "#" designation in
            if negb (truthy (PyStr number)) || negb (isdigit number)
            then Inactive
            else
              match py_int number with
              | None => IntValueError
              | Some n =>
                  LookupPull
                    (if negb (bytes_in "/" repo)
                     then (github_user ++ "/" ++ repo)%string
                     else repo)
                    n
              end
        end
  end.

End Designate.

(** ** The password *)

Record AuthArgs : Type := mkAuthArgs
  { github_api : string;
    github_user : string;
    github_pass : option string;
    github_keyring_set : bool }.

(** What is done to find and keep the password, in order. *)
Inductive CredEvent : Type :=
| KeyringGet (service username : string)
| Prompt (prompt : string)
| KeyringSet (service username password : string).

Section Password.

(** [keyring.get_password] and [getpass.getpass]. *)
Variable keyring_get_password : string -> string -> option string.
Variable getpass_getpass : string -> string.

(** The part of [GithubExtension.activate] that settles the password. *)
Definition resolve_password (args : AuthArgs) : M (list CredEvent) string :=
  let service := ("timid-github!" ++ github_api args)%string in
  passwd <-
    (match github_pass args with
     | None =>
         if negb (github_keyring_set args) then
           modify (fun log => log ++ [KeyringGet service (github_user args)])
           ;;; ret (keyring_get_password service (github_user args))
         else ret None
     | Some p => ret (Some p)
     end) ;;
  passwd <-
    (match passwd with
     | None =>
         let prompt :=
           ("[" ++ github_api args ++ "] Password for " ++ dquote ++
            github_user args ++ dquote ++ "> ")%string in
         modify (fun log => log ++ [Prompt prompt]) ;;;
         ret (getpass_getpass prompt)
     | Some p => ret p
     end) ;;
  (if github_keyring_set args
   then modify (fun log => log ++
                  [KeyringSet service (github_user args) passwd])
   else ret tt) ;;;
  ret passwd.

End Password.

(** ** More sample data *)

Definition sample_base_repo : Repository :=
  mkRepository "git@github.com:some/repo.git" "git://github.com/some/repo.git"
               "https://github.com/some/repo.git".

Definition sample_head_repo : Repository :=
  mkRepository "git@github.com:fork/repo.git" "git://github.com/fork/repo.git"
               "https://github.com/fork/repo.git".

(** A loader for which nothing is a JSON document, and one for which
    every text is the number 5. *)
Definition no_json (document : string) : option PyVal := None.
Definition five_json (document : string) : option PyVal := Some (PyInt 5).

Definition plain_args : Args :=
  mkArgs (Some "https://ci.example.com/run") None None (Some "All fine")
         None.

Definition five_args : Args :=
  mkArgs None (Some "5") (Some "failure") None None.

(** * Properties *)

(** ** The effect monad and traces *)

Lemma count_calls_app (t u : list Event) :
  count_calls (t ++ u) = (count_calls t + count_calls u)%nat.
Proof.
  induction t as [|ev t IH]; simpl; [reflexivity|].
  destruct ev; simpl; rewrite IH; reflexivity.
Qed.

Lemma sleeps_of_app (t u : list Event) :
  sleeps_of (t ++ u) = sleeps_of t ++ sleeps_of u.
Proof.
  induction t as [|ev t IH]; simpl; [reflexivity|].
  destruct ev; simpl; rewrite IH; reflexivity.
Qed.

Lemma removals_of_app (t u : list Event) :
  removals_of (t ++ u) = removals_of t ++ removals_of u.
Proof.
  induction t as [|ev t IH]; simpl; [reflexivity|].
  destruct ev; simpl; rewrite IH; reflexivity.
Qed.

Lemma count_calls_retry_events cmd s n :
  count_calls (retry_events cmd s n) = n.
Proof.
  revert s; induction n as [|n IH]; intros s; simpl; [reflexivity|].
  rewrite IH; reflexivity.
Qed.

Lemma sleeps_of_retry_events cmd s n :
  sleeps_of (retry_events cmd s n) =
  map (fun i => s * 2 ^ Z.of_nat i) (seq 0 n).
Proof.
  revert s; induction n as [|n IH]; intros s; [reflexivity|].
  cbn [retry_events sleeps_of seq map].
  rewrite IH, <- seq_shift, map_map. f_equal.
  - simpl. lia.
  - apply map_ext; intros i.
    rewrite Z.shiftl_mul_pow2 by lia.
    rewrite Nat2Z.inj_succ, Z.pow_succ_r by lia. lia.
Qed.

(** ** The command runner *)

Section RunnerFacts.

Variable spawn : nat -> list string -> Child.
Variable shlex_quote : string -> string.

Local Notation loop := (git_loop spawn).
Local Notation git := (_git spawn shlex_quote).

(** The loop stops by its own condition before the fuel runs out: any fuel
    of at least [ssh_retries - num_tries] gives the same run. *)
Lemma git_loop_fuel fuel cmd R : forall s n c e,
  (Z.to_nat (R - n) <= fuel)%nat ->
  loop fuel cmd R s n c e = loop (Z.to_nat (R - n)) cmd R s n c e.
Proof.
  induction fuel as [|fuel IH]; intros s n c e Hf.
  - replace (Z.to_nat (R - n)) with O by lia. reflexivity.
  - destruct (Z.ltb_spec n R) as [Hlt|Hge].
    + replace (Z.to_nat (R - n)) with (S (Z.to_nat (R - (n + 1)))) by lia.
      cbn [git_loop].
      destruct (Z.ltb_spec n R); [|lia].
      unfold bind.
      destruct (1 <? n + 1); cbn;
        destruct (ssh_failed _); try reflexivity; apply IH; lia.
    + replace (Z.to_nat (R - n)) with O by lia.
      cbn [git_loop].
      destruct (Z.ltb_spec n R); [lia|reflexivity].
Qed.

(** [j] failed retries and then an execution that needs no retry. *)
Lemma git_loop_stops cmd R : forall j fuel s k c e,
  1 <= k -> k + Z.of_nat j < R -> (j < fuel)%nat ->
  (forall i, (i < j)%nat ->
     ssh_failed (spawn (count_calls (trace e) + i) cmd) = true) ->
  ssh_failed (spawn (count_calls (trace e) + j) cmd) = false ->
  loop fuel cmd R s k c e =
  (inr (Some (spawn (count_calls (trace e) + j) cmd)),
   mkEnv (cwd e) (trace e ++ retry_events cmd s (S j))).
Proof.
  induction j as [|j IH]; intros fuel s k c e Hk HR Hfuel Hfail Hlast;
    (destruct fuel as [|fuel]; [lia|]);
    cbn [git_loop];
    (destruct (Z.ltb_spec k R); [|lia]);
    (destruct (Z.ltb_spec 1 (k + 1)); [|lia]);
    unfold bind, time_sleep, emit, modify, ret, environment_call;
    cbn [trace cwd];
    rewrite count_calls_app; cbn [count_calls]; rewrite Nat.add_0_r.
  - rewrite Nat.add_0_r in Hlast. rewrite Hlast.
    cbn [retry_events]. rewrite <- !app_assoc. reflexivity.
  - pose proof (Hfail O ltac:(lia)) as Hfirst.
    rewrite Nat.add_0_r in Hfirst. rewrite Hfirst.
    assert (Hc : count_calls ((trace e ++ [EvSleep s]) ++ [EvCall cmd]) =
                 S (count_calls (trace e)))
      by (rewrite !count_calls_app; simpl; lia).
    rewrite IH; cbn [trace cwd]; rewrite ?Hc; try lia.
    + rewrite <- !app_assoc. cbn [retry_events app].
      replace (S (count_calls (trace e)) + j)%nat
        with (count_calls (trace e) + S j)%nat by lia.
      reflexivity.
    + intros i Hi.
      replace (S (count_calls (trace e)) + i)%nat
        with (count_calls (trace e) + S i)%nat by lia.
      apply Hfail; lia.
    + replace (S (count_calls (trace e)) + j)%nat
        with (count_calls (trace e) + S j)%nat by lia.
      exact Hlast.
Qed.

Lemma env_eta (e : Env) : mkEnv (cwd e) (trace e ++ []) = e.
Proof. destruct e; simpl; rewrite app_nil_r; reflexivity. Qed.

(** Every remaining try fails with the SSH marker: the loop uses them all. *)
Lemma git_loop_exhausts cmd R : forall m fuel s k c e,
  1 <= k -> R = k + Z.of_nat m -> (m <= fuel)%nat ->
  (forall i, (i < m)%nat ->
     ssh_failed (spawn (count_calls (trace e) + i) cmd) = true) ->
  loop fuel cmd R s k c e =
  (inr match m with
       | O => c
       | S m' => Some (spawn (count_calls (trace e) + m') cmd)
       end,
   mkEnv (cwd e) (trace e ++ retry_events cmd s m)).
Proof.
  induction m as [|m IH]; intros fuel s k c e Hk HR Hfuel Hfail.
  - cbn [retry_events]. rewrite env_eta.
    destruct fuel as [|fuel]; [reflexivity|].
    cbn [git_loop].
    destruct (Z.ltb_spec k R); [lia|reflexivity].
  - destruct fuel as [|fuel]; [lia|].
    cbn [git_loop].
    destruct (Z.ltb_spec k R); [|lia].
    destruct (Z.ltb_spec 1 (k + 1)); [|lia].
    unfold bind, time_sleep, emit, modify, ret, environment_call.
    cbn [trace cwd].
    assert (Hc : count_calls ((trace e ++ [EvSleep s]) ++ [EvCall cmd]) =
                 S (count_calls (trace e)))
      by (rewrite !count_calls_app; simpl; lia).
    rewrite count_calls_app; cbn [count_calls]; rewrite Nat.add_0_r.
    pose proof (Hfail O ltac:(lia)) as Hfirst.
    rewrite Nat.add_0_r in Hfirst. rewrite Hfirst.
    rewrite (IH fuel); cbn [trace cwd]; rewrite ?Hc; try lia.
    + rewrite <- !app_assoc. cbn [retry_events app].
      destruct m as [|m]; [rewrite Nat.add_0_r; reflexivity|].
      replace (S (count_calls (trace e)) + m)%nat
        with (count_calls (trace e) + S m)%nat by lia.
      reflexivity.
    + intros i Hi.
      replace (S (count_calls (trace e)) + i)%nat
        with (count_calls (trace e) + S i)%nat by lia.
      apply Hfail; lia.
Qed.

(** Whatever the subprocesses answer, the loop makes some number [m] of
    further tries, within the retry budget, and ends holding the last one. *)
Lemma git_loop_runs cmd R : forall fuel s k c e,
  1 <= k -> fuel = Z.to_nat (R - k) ->
  exists m, (m <= fuel)%nat /\
    loop fuel cmd R s k c e =
    (inr match m with
         | O => c
         | S m' => Some (spawn (count_calls (trace e) + m') cmd)
         end,
     mkEnv (cwd e) (trace e ++ retry_events cmd s m)).
Proof.
  induction fuel as [|fuel IH]; intros s k c e Hk Hfuel.
  - exists O. split; [lia|]. cbn [retry_events]. rewrite env_eta. reflexivity.
  - cbn [git_loop].
    destruct (Z.ltb_spec k R); [|lia].
    destruct (Z.ltb_spec 1 (k + 1)); [|lia].
    unfold bind, time_sleep, emit, modify, ret, environment_call.
    cbn [trace cwd].
    assert (Hc : count_calls ((trace e ++ [EvSleep s]) ++ [EvCall cmd]) =
                 S (count_calls (trace e)))
      by (rewrite !count_calls_app; simpl; lia).
    rewrite count_calls_app; cbn [count_calls]; rewrite Nat.add_0_r.
    destruct (ssh_failed (spawn (count_calls (trace e)) cmd)).
    + destruct (IH (Z.shiftl s 1) (k + 1)
                   (Some (spawn (count_calls (trace e)) cmd))
                   (mkEnv (cwd e) ((trace e ++ [EvSleep s]) ++ [EvCall cmd])))
        as [m [Hm Hrun]]; [lia|lia|].
      exists (S m). split; [lia|].
      rewrite Hrun. cbn [trace cwd]. rewrite Hc.
      rewrite <- !app_assoc. cbn [retry_events app].
      destruct m as [|m]; [rewrite Nat.add_0_r; reflexivity|].
      replace (S (count_calls (trace e)) + m)%nat
        with (count_calls (trace e) + S m)%nat by lia.
      reflexivity.
    + exists 1%nat. split; [lia|].
      rewrite <- !app_assoc, Nat.add_0_r. reflexivity.
Qed.

Lemma ssh_failed_true (c : Child) :
  returncode c <> 0 ->
  bytes_in SSH_ERROR (stdout c) = true \/
  bytes_in SSH_ERROR (stderr c) = true ->
  ssh_failed c = true.
Proof.
  intros Hrc Hmark. unfold ssh_failed.
  destruct (Z.eqb_spec (returncode c) 0); [contradiction|].
  destruct Hmark as [-> | ->]; simpl; auto using orb_true_r.
Qed.

Lemma ssh_failed_zero (c : Child) : returncode c = 0 -> ssh_failed c = false.
Proof. intros Hrc. unfold ssh_failed. rewrite Hrc. reflexivity. Qed.

(** The first pass through the loop: no sleep, one execution. *)
Lemma git_first_try cmd R e :
  1 <= R ->
  loop (Z.to_nat R) cmd R 1 0 None e =
  if ssh_failed (spawn (count_calls (trace e)) cmd)
  then loop (Z.to_nat R - 1) cmd R 1 1
         (Some (spawn (count_calls (trace e)) cmd))
         (mkEnv (cwd e) (trace e ++ [EvCall cmd]))
  else (inr (Some (spawn (count_calls (trace e)) cmd)),
        mkEnv (cwd e) (trace e ++ [EvCall cmd])).
Proof.
  intros HR.
  destruct (Z.to_nat R) as [|fuel] eqn:Hfuel; [lia|].
  cbn [git_loop].
  destruct (Z.ltb_spec 0 R); [|lia].
  replace (Z.ltb 1 (0 + 1)) with false by reflexivity.
  unfold bind, ret, environment_call.
  rewrite Nat.sub_succ, Nat.sub_0_r.
  destruct (ssh_failed _); reflexivity.
Qed.

Local Notation nth_run e args i :=
  (spawn (count_calls (trace e) + i) ("git" :: args)).

(** C2.  With [ssh_retries = R >= 1], when the first [R - 1] executions exit
    non-zero with the SSH marker in their standard output or standard error
    and the [R]-th exits with 0, [_git] runs the subprocess exactly [R]
    times, sleeps [R - 1] times, for 1, 2, 4, ..., 2^(R-2), each sleep
    right before a retry, and returns the standard output of the last
    execution. *)
Theorem git_retries_until_success (R : nat) (args : list string)
    (do_raise : bool) (e : Env) :
  (1 <= R)%nat ->
  (forall i, (i < R - 1)%nat ->
     returncode (nth_run e args i) <> 0 /\
     (bytes_in SSH_ERROR (stdout (nth_run e args i)) = true \/
      bytes_in SSH_ERROR (stderr (nth_run e args i)) = true)) ->
  returncode (nth_run e args (R - 1)%nat) = 0 ->
  git args (Z.of_nat R) do_raise e =
    (inr (stdout (nth_run e args (R - 1)%nat)),
     mkEnv (cwd e) (trace e ++ attempt_events ("git" :: args) R)) /\
  count_calls (attempt_events ("git" :: args) R) = R /\
  sleeps_of (attempt_events ("git" :: args) R) =
    map (fun i => 2 ^ Z.of_nat i) (seq 0 (R - 1)).
Proof.
  intros HR Hfail Hok. split; [|split].
  - unfold git, bind. rewrite git_first_try by lia.
    rewrite Nat2Z.id. unfold attempt_events.
    destruct (R - 1)%nat as [|j] eqn:HR1.
    + rewrite Nat.add_0_r in *.
      rewrite (ssh_failed_zero _ Hok), Hok.
      rewrite andb_false_r. reflexivity.
    + destruct (Hfail O ltac:(lia)) as [Hrc Hmark].
      rewrite Nat.add_0_r in Hrc, Hmark.
      rewrite (ssh_failed_true _ Hrc Hmark).
      assert (Hc : count_calls (trace e ++ [EvCall ("git" :: args)]) =
                   S (count_calls (trace e)))
        by (rewrite count_calls_app; simpl; lia).
      rewrite (git_loop_stops ("git" :: args) (Z.of_nat R) j);
        cbn [trace cwd]; rewrite ?Hc; try lia.
      * replace (S (count_calls (trace e)) + j)%nat
          with (count_calls (trace e) + S j)%nat by lia.
        rewrite Hok, andb_false_r, <- app_assoc. reflexivity.
      * intros i Hi.
        replace (S (count_calls (trace e)) + i)%nat
          with (count_calls (trace e) + S i)%nat by lia.
        destruct (Hfail (S i) ltac:(lia)) as [Hrc' Hmark'].
        apply ssh_failed_true; assumption.
      * replace (S (count_calls (trace e)) + j)%nat
          with (count_calls (trace e) + S j)%nat by lia.
        apply ssh_failed_zero, Hok.
  - unfold attempt_events. cbn [count_calls].
    rewrite count_calls_retry_events. lia.
  - unfold attempt_events. cbn [sleeps_of].
    rewrite sleeps_of_retry_events.
    apply map_ext; intros i. lia.
Qed.

(** C3.  With [ssh_retries = R >= 1] and [do_raise] true, when all [R]
    executions exit non-zero with the SSH marker in their output, [_git]
    raises [GitException] after exactly [R] executions and [R - 1] sleeps;
    the message holds the shell-quoted words of the command line joined by
    spaces and the exit code of the last execution, which is not 0. *)
Theorem git_retries_exhausted (R : nat) (args : list string) (e : Env) :
  (1 <= R)%nat ->
  (forall i, (i < R)%nat ->
     returncode (nth_run e args i) <> 0 /\
     (bytes_in SSH_ERROR (stdout (nth_run e args i)) = true \/
      bytes_in SSH_ERROR (stderr (nth_run e args i)) = true)) ->
  git args (Z.of_nat R) true e =
    (inl (GitException
            ("Git command " ++ dquote ++
             String.concat " " (map shlex_quote ("git" :: args)) ++ dquote ++
             " returned " ++ fmt_d (returncode (nth_run e args (R - 1)%nat)))),
     mkEnv (cwd e) (trace e ++ attempt_events ("git" :: args) R)) /\
  returncode (nth_run e args (R - 1)%nat) <> 0 /\
  count_calls (attempt_events ("git" :: args) R) = R /\
  List.length (sleeps_of (attempt_events ("git" :: args) R)) = (R - 1)%nat.
Proof.
  intros HR Hfail. split; [|split; [|split]].
  - unfold git, bind. rewrite git_first_try by lia.
    rewrite Nat2Z.id. unfold attempt_events.
    destruct (Hfail O ltac:(lia)) as [Hrc Hmark].
    rewrite Nat.add_0_r in Hrc, Hmark.
    rewrite (ssh_failed_true _ Hrc Hmark).
    assert (Hc : count_calls (trace e ++ [EvCall ("git" :: args)]) =
                 S (count_calls (trace e)))
      by (rewrite count_calls_app; simpl; lia).
    rewrite (git_loop_exhausts ("git" :: args) (Z.of_nat R) (R - 1));
      cbn [trace cwd]; rewrite ?Hc; try lia.
    + assert (Hlast :
        match (R - 1)%nat with
        | O => Some (spawn (count_calls (trace e)) ("git" :: args))
        | S m' => Some (spawn (S (count_calls (trace e)) + m') ("git" :: args))
        end = Some (nth_run e args (R - 1)%nat)).
      { destruct (R - 1)%nat as [|m]; [rewrite Nat.add_0_r; reflexivity|].
        f_equal. f_equal. lia. }
      rewrite Hlast.
      destruct (Hfail (R - 1)%nat ltac:(lia)) as [Hrc' _].
      destruct (Z.eqb_spec (returncode (nth_run e args (R - 1)%nat)) 0);
        [contradiction|].
      cbn [andb negb]. unfold raise, git_message, git_command.
      rewrite <- app_assoc. reflexivity.
    + intros i Hi.
      replace (S (count_calls (trace e)) + i)%nat
        with (count_calls (trace e) + S i)%nat by lia.
      destruct (Hfail (S i) ltac:(lia)) as [Hrc' Hmark'].
      apply ssh_failed_true; assumption.
  - apply (Hfail (R - 1)%nat). lia.
  - unfold attempt_events. cbn [count_calls].
    rewrite count_calls_retry_events. lia.
  - unfold attempt_events. cbn [sleeps_of].
    rewrite sleeps_of_retry_events, List.length_map, List.length_seq.
    reflexivity.
Qed.

(** C9.  With [do_raise] false and [ssh_retries = R >= 1], [_git] never
    raises: after some number [k] of executions, [1 <= k <= R], it returns
    the standard output of the last of them, whatever its exit code, a
    non-zero one included. *)
Theorem git_no_raise_returns_stdout (R : Z) (args : list string) (e : Env) :
  1 <= R ->
  exists k, (1 <= k <= Z.to_nat R)%nat /\
    git args R false e =
      (inr (stdout (nth_run e args (k - 1)%nat)),
       mkEnv (cwd e) (trace e ++ attempt_events ("git" :: args) k)).
Proof.
  intros HR. unfold git, bind. rewrite git_first_try by lia.
  destruct (ssh_failed (spawn (count_calls (trace e)) ("git" :: args))).
  - destruct (git_loop_runs ("git" :: args) R (Z.to_nat R - 1) 1 1
                (Some (spawn (count_calls (trace e)) ("git" :: args)))
                (mkEnv (cwd e) (trace e ++ [EvCall ("git" :: args)])))
      as [m [Hm Hrun]]; [lia|lia|].
    exists (S m). split; [lia|].
    rewrite Hrun. cbn [trace cwd].
    rewrite count_calls_app. cbn [count_calls].
    unfold attempt_events. rewrite <- app_assoc.
    rewrite Nat.sub_succ, Nat.sub_0_r.
    destruct m as [|m]; cbn [andb];
      [rewrite Nat.add_0_r; reflexivity|].
    replace (count_calls (trace e) + 1 + m)%nat
      with (count_calls (trace e) + S m)%nat by lia.
    reflexivity.
  - exists 1%nat. split; [lia|].
    cbn [andb]. rewrite Nat.add_0_r. reflexivity.
Qed.

End RunnerFacts.

(** ** What a computation adds to the trace *)

Lemma extends_by_refl P e : extends_by P e e.
Proof. exists []. rewrite app_nil_r. auto. Qed.

Lemma extends_by_trans P e1 e2 e3 :
  extends_by P e1 e2 -> extends_by P e2 e3 -> extends_by P e1 e3.
Proof.
  intros [n1 [H1 F1]] [n2 [H2 F2]]. exists (n1 ++ n2). split.
  - rewrite H2, H1, app_assoc. reflexivity.
  - apply Forall_app; auto.
Qed.

Lemma emits_weaken {A} (P Q : Event -> Prop) (m : M Env A) :
  (forall ev, P ev -> Q ev) -> emits P m -> emits Q m.
Proof.
  intros HPQ Hm e. destruct (Hm e) as [new [Ht HF]].
  exists new. split; [assumption|].
  eapply Forall_impl; eauto.
Qed.

Lemma emits_ret {A} P (a : A) : emits P (ret a).
Proof. intros e. apply extends_by_refl. Qed.

Lemma emits_raise {A} P (x : Exn) : emits P (@raise Env A x).
Proof. intros e. apply extends_by_refl. Qed.

Lemma emits_set_cwd P d : emits P (set_cwd d).
Proof. intros e. exists []. simpl. rewrite app_nil_r. auto. Qed.

Lemma emits_bind {A B} P (m : M Env A) (k : A -> M Env B) :
  emits P m -> (forall a, emits P (k a)) -> emits P (bind m k).
Proof.
  intros Hm Hk e. unfold bind. specialize (Hm e).
  destruct (m e) as [[x|a] e1]; [exact Hm|].
  eapply extends_by_trans; [exact Hm|apply Hk].
Qed.

Lemma emits_try_except {A} P (m : M Env A) (h : Exn -> M Env A) :
  emits P m -> (forall x, emits P (h x)) -> emits P (try_except m h).
Proof.
  intros Hm Hh e. unfold try_except. specialize (Hm e).
  destruct (m e) as [[x|a] e1]; [|exact Hm].
  eapply extends_by_trans; [exact Hm|apply Hh].
Qed.

Lemma keeps_cwd_ret {A} (a : A) : keeps_cwd (@ret Env A a).
Proof. intros e. reflexivity. Qed.

Lemma keeps_cwd_raise {A} (x : Exn) : keeps_cwd (@raise Env A x).
Proof. intros e. reflexivity. Qed.

Lemma keeps_cwd_bind {A B} (m : M Env A) (k : A -> M Env B) :
  keeps_cwd m -> (forall a, keeps_cwd (k a)) -> keeps_cwd (bind m k).
Proof.
  intros Hm Hk e. unfold bind. specialize (Hm e).
  destruct (m e) as [[x|a] e1]; [exact Hm|].
  rewrite Hk. exact Hm.
Qed.

Lemma removals_of_no_removal new :
  Forall no_removal new -> removals_of new = [].
Proof.
  induction 1 as [|ev new Hev _ IH]; [reflexivity|].
  destruct ev; simpl in *; try contradiction; assumption.
Qed.

Lemma removals_of_not_subcommand sub new :
  Forall (not_subcommand sub) new -> removals_of new = [].
Proof.
  induction 1 as [|ev new Hev _ IH]; [reflexivity|].
  destruct ev; simpl in *; try contradiction; assumption.
Qed.

Lemma removals_of_runs_only cmd new :
  Forall (runs_only cmd) new -> removals_of new = [].
Proof.
  induction 1 as [|ev new Hev _ IH]; [reflexivity|].
  destruct Hev as [-> | [t ->]]; simpl; assumption.
Qed.

Section CloneFacts.

Variable spawn : nat -> list string -> Child.
Variable shlex_quote : string -> string.
Variable os_lstat : string -> LstatResult.
Variable os_path_isdir : string -> bool.
Variable os_remove_error : string -> option Exn.
Variable shutil_rmtree_error : string -> option Exn.
Variable ghe : GithubExtension.

Local Notation loop := (git_loop spawn).
Local Notation git := (_git spawn shlex_quote).
Local Notation update := (_update spawn shlex_quote ghe).
Local Notation clone := (_clone spawn shlex_quote ghe).
Local Notation clone_action :=
  (CloneAction_call spawn shlex_quote os_lstat os_path_isdir
     os_remove_error shutil_rmtree_error ghe).

Lemma git_loop_emits cmd R : forall fuel s k c,
  emits (runs_only cmd) (loop fuel cmd R s k c).
Proof.
  induction fuel as [|fuel IH]; intros s k c; cbn [git_loop].
  - apply emits_ret.
  - destruct (k <? R); [|apply emits_ret].
    apply emits_bind.
    + destruct (1 <? k + 1); [|apply emits_ret].
      apply emits_bind; [|intros; apply emits_ret].
      intros e. exists [EvSleep s]. split; [reflexivity|].
      constructor; [right; eauto|constructor].
    + intros s'. apply emits_bind.
      * intros e. exists [EvCall cmd]. split; [reflexivity|].
        constructor; [left; reflexivity|constructor].
      * intros c'. destruct (ssh_failed c'); [apply IH|apply emits_ret].
Qed.

Lemma git_loop_keeps_cwd cmd R : forall fuel s k c,
  keeps_cwd (loop fuel cmd R s k c).
Proof.
  induction fuel as [|fuel IH]; intros s k c; cbn [git_loop].
  - apply keeps_cwd_ret.
  - destruct (k <? R); [|apply keeps_cwd_ret].
    apply keeps_cwd_bind.
    + destruct (1 <? k + 1); [|apply keeps_cwd_ret].
      apply keeps_cwd_bind; [|intros; apply keeps_cwd_ret].
      intros e. reflexivity.
    + intros s'. apply keeps_cwd_bind.
      * intros e. reflexivity.
      * intros c'. destruct (ssh_failed c'); [apply IH|apply keeps_cwd_ret].
Qed.

Lemma git_emits args R do_raise :
  emits (runs_only ("git" :: args)) (git args R do_raise).
Proof.
  unfold _git. apply emits_bind; [apply git_loop_emits|].
  intros [c|]; [|destruct do_raise; apply emits_raise].
  destruct (do_raise && _); [apply emits_raise|apply emits_ret].
Qed.

Lemma git_keeps_cwd args R do_raise : keeps_cwd (git args R do_raise).
Proof.
  unfold _git. apply keeps_cwd_bind; [apply git_loop_keeps_cwd|].
  intros [c|]; [|destruct do_raise; apply keeps_cwd_raise].
  destruct (do_raise && _); [apply keeps_cwd_raise|apply keeps_cwd_ret].
Qed.

Lemma git_not_subcommand sub a args R do_raise :
  a <> sub -> emits (not_subcommand sub) (git (a :: args) R do_raise).
Proof.
  intros Hne. eapply emits_weaken; [|apply git_emits].
  intros ev [-> | [t ->]]; simpl; auto.
Qed.

(** [_update] runs no [git clone], deletes nothing and stays in the
    directory it was started in. *)
Lemma update_emits : emits (not_subcommand "clone") update.
Proof.
  unfold _update.
  repeat (apply emits_bind;
          [apply git_not_subcommand; discriminate|intros _]).
  apply emits_ret.
Qed.

Lemma update_keeps_cwd : keeps_cwd update.
Proof.
  unfold _update.
  repeat (apply keeps_cwd_bind; [apply git_keeps_cwd|intros _]).
  apply keeps_cwd_ret.
Qed.

Lemma not_subcommand_no_removal sub ev :
  not_subcommand sub ev -> no_removal ev.
Proof. destruct ev; simpl; auto. Qed.

Lemma runs_only_no_removal cmd ev : runs_only cmd ev -> no_removal ev.
Proof. intros [-> | [t ->]]; exact I. Qed.

(** [_git] with a positive number of tries starts with the subprocess. *)
Lemma git_starts args R do_raise e :
  1 <= R ->
  exists rest,
    trace (snd (git args R do_raise e)) =
      trace e ++ EvCall ("git" :: args) :: rest /\
    Forall (runs_only ("git" :: args)) rest.
Proof.
  intros HR. unfold _git, bind.
  rewrite git_first_try by assumption.
  set (c0 := spawn (count_calls (trace e)) ("git" :: args)).
  set (e1 := mkEnv (cwd e) (trace e ++ [EvCall ("git" :: args)])).
  destruct (ssh_failed c0).
  - destruct (git_loop_emits ("git" :: args) R (Z.to_nat R - 1) 1 1
                (Some c0) e1) as [new [Ht HF]].
    destruct (loop (Z.to_nat R - 1) ("git" :: args) R 1 1 (Some c0) e1)
      as [[x|r] e2]; cbn [snd] in *.
    + exists new. split; [|assumption].
      rewrite Ht. unfold e1. cbn [trace]. rewrite <- app_assoc. reflexivity.
    + exists new. split; [|assumption].
      assert (Hx : forall A (m : M Env A),
                (forall e', trace (snd (m e')) = trace e') ->
                trace (snd (m e2)) = trace e ++ EvCall ("git" :: args) :: new).
      { intros A m Hm. rewrite Hm, Ht. unfold e1. cbn [trace].
        rewrite <- app_assoc. reflexivity. }
      destruct r as [c|]; [destruct (do_raise && _)|destruct do_raise];
        apply Hx; reflexivity.
  - exists []. split; [|constructor].
    destruct (do_raise && _); reflexivity.
Qed.

(** [_clone] starts with [git clone] into the target directory and deletes
    nothing. *)
Lemma clone_starts work_dir target_dir e :
  exists rest,
    trace (snd (clone work_dir target_dir e)) =
      trace e ++ EvCall ["git"; "clone"; repo_url ghe; target_dir] :: rest /\
    removals_of rest = [].
Proof.
  unfold _clone. unfold bind at 1.
  destruct (git_starts ["clone"; repo_url ghe; target_dir] 5 true e)
    as [r1 [Ht1 HF1]]; [lia|].
  destruct (git ["clone"; repo_url ghe; target_dir] 5 true e)
    as [[x|out] e1]; cbn [snd] in *.
  - exists r1. split; [assumption|].
    eapply removals_of_runs_only; eassumption.
  - assert (Hrest : emits no_removal
              (try_except (set_cwd target_dir ;;; update)
                          (fun x => set_cwd work_dir ;;; raise x))).
    { apply emits_try_except.
      - apply emits_bind; [apply emits_set_cwd|intros _].
        eapply emits_weaken; [|apply update_emits].
        apply not_subcommand_no_removal.
      - intros x. apply emits_bind; [apply emits_set_cwd|intros _].
        apply emits_raise. }
    destruct (Hrest e1) as [r2 [Ht2 HF2]].
    exists (r1 ++ r2). split.
    + rewrite Ht2, Ht1, <- app_assoc. reflexivity.
    + rewrite removals_of_app.
      rewrite (removals_of_runs_only _ _ HF1).
      apply removals_of_no_removal; assumption.
Qed.

Local Notation repo_dir e := (os_path_join (cwd e) (repo_name ghe)).
Local Notation clone_event e :=
  (EvCall ["git"; "clone"; repo_url ghe; repo_dir e]).

(** C4.  [CloneAction.__call__] takes the branch the probe of the target
    path selects.
    - The path is absent ([lstat] fails with [ENOENT]): it is exactly
      [_clone], which starts with [git clone]; nothing is deleted.
    - The path is not a directory: the file is deleted, then [_clone].
    - The path is a directory without [.git]: the tree is removed, then
      [_clone].
    - The path is a directory with [.git]: [_update] runs in it.  When it
      succeeds, that is the whole action: nothing is deleted, no
      [git clone] runs, the directory is kept and the working directory
      stays the repository directory.  When it fails, the working directory
      is set back, the tree is removed and [_clone] runs.
    The deletion and the removal are taken to succeed. *)
Theorem clone_action_branches (e : Env) :
  (os_lstat (repo_dir e) = LstatError ENOENT ->
     clone_action e = clone (cwd e) (repo_dir e) e /\
     exists rest,
       trace (snd (clone_action e)) =
         trace e ++ clone_event e :: rest /\
       removals_of rest = []) /\
  (forall mode,
     os_lstat (repo_dir e) = LstatMode mode -> S_ISDIR mode = false ->
     os_remove_error (repo_dir e) = None ->
     clone_action e =
       clone (cwd e) (repo_dir e)
         (mkEnv (cwd e) (trace e ++ [EvRemove (repo_dir e)])) /\
     exists rest,
       trace (snd (clone_action e)) =
         trace e ++ EvRemove (repo_dir e) :: clone_event e :: rest /\
       removals_of rest = []) /\
  (forall mode,
     os_lstat (repo_dir e) = LstatMode mode -> S_ISDIR mode = true ->
     os_path_isdir (os_path_join (repo_dir e) ".git") = false ->
     shutil_rmtree_error (repo_dir e) = None ->
     clone_action e =
       clone (cwd e) (repo_dir e)
         (mkEnv (cwd e) (trace e ++ [EvRmtree (repo_dir e)])) /\
     exists rest,
       trace (snd (clone_action e)) =
         trace e ++ EvRmtree (repo_dir e) :: clone_event e :: rest /\
       removals_of rest = []) /\
  (forall mode r e1,
     os_lstat (repo_dir e) = LstatMode mode -> S_ISDIR mode = true ->
     os_path_isdir (os_path_join (repo_dir e) ".git") = true ->
     update (mkEnv (repo_dir e) (trace e)) = (inr r, e1) ->
     clone_action e = (inr r, e1) /\
     cwd e1 = repo_dir e /\
     exists new,
       trace e1 = trace e ++ new /\
       Forall (not_subcommand "clone") new /\
       removals_of new = []) /\
  (forall mode x e1,
     os_lstat (repo_dir e) = LstatMode mode -> S_ISDIR mode = true ->
     os_path_isdir (os_path_join (repo_dir e) ".git") = true ->
     update (mkEnv (repo_dir e) (trace e)) = (inl x, e1) ->
     shutil_rmtree_error (repo_dir e) = None ->
     clone_action e =
       clone (cwd e) (repo_dir e)
         (mkEnv (cwd e) (trace e1 ++ [EvRmtree (repo_dir e)])) /\
     exists upd rest,
       trace (snd (clone_action e)) =
         trace e ++ upd ++ EvRmtree (repo_dir e) :: clone_event e :: rest /\
       removals_of upd = [] /\
       removals_of rest = []).
Proof.
  assert (Hthen : forall ev (pre : list Event),
    exists rest,
      trace (snd (clone (cwd e) (repo_dir e)
                    (mkEnv (cwd e) (pre ++ [ev])))) =
        pre ++ ev :: clone_event e :: rest /\
      removals_of rest = []).
  { intros ev pre.
    destruct (clone_starts (cwd e) (repo_dir e) (mkEnv (cwd e) (pre ++ [ev])))
      as [rest [Ht Hr]].
    exists rest. split; [|assumption].
    rewrite Ht. cbn [trace]. rewrite <- app_assoc. reflexivity. }
  assert (Hcall : forall r,
    os_lstat (repo_dir e) = r ->
    clone_action e =
    match r with
    | LstatError errno =>
        if negb (errno =? ENOENT) then (inl (OSError errno), e)
        else clone (cwd e) (repo_dir e) e
    | LstatMode st_mode =>
        let removed ev (e' : Env) (failure : option Exn) :=
          match failure with
          | Some x => (inl x, mkEnv (cwd e) (trace e' ++ [ev]))
          | None => clone (cwd e) (repo_dir e)
                      (mkEnv (cwd e) (trace e' ++ [ev]))
          end in
        if negb (S_ISDIR st_mode) then
          removed (EvRemove (repo_dir e)) e (os_remove_error (repo_dir e))
        else if os_path_isdir (os_path_join (repo_dir e) ".git") then
          match update (mkEnv (repo_dir e) (trace e)) with
          | (inr res, e1) => (inr res, e1)
          | (inl _, e1) =>
              removed (EvRmtree (repo_dir e)) e1
                      (shutil_rmtree_error (repo_dir e))
          end
        else
          removed (EvRmtree (repo_dir e)) e
                  (shutil_rmtree_error (repo_dir e))
    end).
  { intros r Hr.
    unfold CloneAction_call, os_remove, shutil_rmtree, try_except,
      set_cwd, emit, modify, ret, raise, gets, bind.
    rewrite Hr. destruct r as [st_mode|errno].
    - destruct (S_ISDIR st_mode); cbn [negb].
      + destruct (os_path_isdir _).
        * cbn [cwd trace].
          destruct (update _) as [[x|res] e1]; [|reflexivity].
          cbn [cwd trace].
          destruct (shutil_rmtree_error _); reflexivity.
        * destruct (shutil_rmtree_error _); reflexivity.
      + destruct (os_remove_error _); reflexivity.
    - destruct (negb _); reflexivity. }
  repeat split.
  - rewrite (Hcall _ H). reflexivity.
  - destruct (clone_starts (cwd e) (repo_dir e) e) as [rest [Ht Hr]].
    exists rest. split; [|assumption].
    rewrite (Hcall _ H). exact Ht.
  - rewrite (Hcall _ H), H0, H1. reflexivity.
  - destruct (Hthen (EvRemove (repo_dir e)) (trace e)) as [rest [Ht Hr]].
    exists rest. split; [|assumption].
    rewrite (Hcall _ H), H0, H1. exact Ht.
  - rewrite (Hcall _ H), H0, H1, H2. reflexivity.
  - destruct (Hthen (EvRmtree (repo_dir e)) (trace e)) as [rest [Ht Hr]].
    exists rest. split; [|assumption].
    rewrite (Hcall _ H), H0, H1, H2. exact Ht.
  - rewrite (Hcall _ H), H0, H1. cbn [negb]. rewrite H2. reflexivity.
  - pose proof (update_keeps_cwd (mkEnv (repo_dir e) (trace e))) as Hc.
    rewrite H2 in Hc. exact Hc.
  - destruct (update_emits (mkEnv (repo_dir e) (trace e))) as [new [Ht HF]].
    rewrite H2 in Ht. exists new. repeat split; try assumption.
    eapply removals_of_not_subcommand; eassumption.
  - rewrite (Hcall _ H), H0, H1. cbn [negb]. rewrite H2, H3. reflexivity.
  - destruct (update_emits (mkEnv (repo_dir e) (trace e))) as [upd [Ht HF]].
    rewrite H2 in Ht. cbn [snd trace] in Ht.
    destruct (Hthen (EvRmtree (repo_dir e)) (trace e1)) as [rest [Ht' Hr]].
    exists upd, rest. repeat split; try assumption.
    + rewrite (Hcall _ H), H0, H1. cbn [negb]. rewrite H2, H3.
      rewrite Ht'. rewrite Ht, <- app_assoc. reflexivity.
    + eapply removals_of_not_subcommand; eassumption.
Qed.

End CloneFacts.

(** ** Building the final status *)

Section ActivateFacts.

Variable json_loads : string -> option PyVal.

(** C7.  The combined override document holds status "override", text "t"
    and url "u"; of the discrete overrides only the status, "status2", is
    given.  The final status then has status "status2" (the discrete field
    wins), text "t" and url "u" (both from the document). *)
Theorem override_precedence (args : Args) (document : string)
    (d : list (string * PyVal)) :
  github_override args = Some document ->
  document <> EmptyString ->
  json_loads document = Some (PyDict d) ->
  dict_get d "status" = Some (PyStr "override") ->
  dict_get d "text" = Some (PyStr "t") ->
  dict_get d "url" = Some (PyStr "u") ->
  github_override_status args = Some "status2" ->
  github_override_text args = None ->
  github_override_url args = None ->
  activate_final_status json_loads args =
    inr (mkStatus (PyStr "status2") (PyStr "t") (PyStr "u")).
Proof.
  intros Hdoc Hne Hjson Hs Ht Hu Hos Hot Hou.
  unfold activate_final_status. rewrite Hdoc.
  assert (Htruthy : truthy (PyStr document) = true).
  { simpl. destruct (String.eqb_spec document EmptyString);
      [contradiction|reflexivity]. }
  rewrite Htruthy, Hjson.
  unfold apply_override, override_lookup. rewrite Hs, Ht, Hu.
  rewrite Hos, Hot, Hou. reflexivity.
Qed.

End ActivateFacts.

(** ** Status reconciliation *)

Lemma last_opt_snoc {A} (l : list A) (a : A) : last_opt (l ++ [a]) = Some a.
Proof. unfold last_opt. rewrite rev_app_distr. reflexivity. Qed.

Lemma transmitted_snoc log c outcome :
  transmitted (log ++ [mkApiEvent c outcome]) =
  match outcome with
  | None => transmitted log ++ [c]
  | Some _ => transmitted log
  end.
Proof.
  unfold transmitted. rewrite filter_app, map_app. simpl.
  destruct outcome; simpl; [rewrite app_nil_r|]; reflexivity.
Qed.

Section ExtensionFacts.

Variable create_status : list ApiEvent -> StatusCall -> option Exn.
Variable result_bool : StepResult -> bool.
Variable state_str : State -> string.

Local Notation set_status := (_set_status create_status).
Local Notation on_pre_step := (pre_step create_status).
Local Notation on_post_step := (post_step create_status result_bool state_str).
Local Notation on_finalize := (finalize create_status).
Local Notation callback :=
  (run_callback create_status result_bool state_str).
Local Notation callbacks :=
  (run_callbacks create_status result_bool state_str).

(** What one report does: the request is made first; the field is written
    only when the request went through. *)
Lemma set_status_run (s t u : PyVal) (st : GhState) :
  set_status s t u st =
  match create_status (api_log st) (wire (mkStatus s t u)) with
  | None =>
      (inr tt,
       mkGh (record_status (self st) (mkStatus s t u))
            (api_log st ++ [mkApiEvent (wire (mkStatus s t u)) None]))
  | Some x =>
      (inl x,
       mkGh (self st)
            (api_log st ++ [mkApiEvent (wire (mkStatus s t u)) (Some x)]))
  end.
Proof.
  unfold _set_status, last_commit_create_status, set_last_status,
    modify, bind, wire. cbn [status text url].
  destruct (create_status _ _); reflexivity.
Qed.

(** A callback makes no report and changes nothing, or makes exactly one
    request, writing the field after it and only when it went through. *)
Lemma run_callback_cases (cb : Callback) (st : GhState) :
  callback cb st = (inr tt, st) \/
  exists d, report_made create_status d st (callback cb st).
Proof.
  assert (Hreport : forall s t u,
    report_made create_status (mkStatus s t u) st
      (match set_status s t u st with
       | (inl x, st') => (inl x, st')
       | (inr _, st') => (inr tt, st')
       end)).
  { intros s t u. unfold report_made. rewrite set_status_run.
    destruct (create_status _ _); cbn; auto. }
  destruct cb as [step idx|step idx result|result].
  - right. eexists.
    unfold run_callback, pre_step, bind, gets, ret.
    cbv beta iota.
    match goal with
    | |- report_made _ _ _ ?r =>
        replace r with
          (match set_status (PyStr "pending") (PyStr (name step))
                   (py_of_opt (status_url (self st))) st with
           | (inl x, st') => (inl x, st')
           | (inr _, st') => (inr tt, st')
           end)
          by (destruct (set_status _ _ _ st) as [[x|[]] st']; reflexivity)
    end.
    apply Hreport.
  - cbn [run_callback]. unfold post_step.
    destruct (result_bool result); cbn [negb]; [left; reflexivity|].
    right.
    destruct (match state result with
              | FAILURE => _
              | _ => _
              end) as [status' msg'].
    eexists. unfold bind, gets. cbv beta iota.
    match goal with
    | |- report_made _ _ _ ?r =>
        replace r with
          (match set_status (PyStr status') (py_of_opt msg')
                   (py_of_opt (status_url (self st))) st with
           | (inl x, st') => (inl x, st')
           | (inr _, st') => (inr tt, st')
           end)
          by (destruct (set_status _ _ _ st) as [[x|[]] st']; reflexivity)
    end.
    apply Hreport.
  - cbn [run_callback].
    destruct result as [|str|str]; unfold finalize.
    + right. eexists. unfold bind, gets, ret. cbv beta iota.
      match goal with
      | |- report_made _ _ _ ?r =>
          replace r with
            (match set_status (status (final_status (self st)))
                     (text (final_status (self st)))
                     (url (final_status (self st))) st with
             | (inl x, st') => (inl x, st')
             | (inr _, st') => (inr tt, st')
             end)
            by (destruct (set_status _ _ _ st) as [[x|[]] st']; reflexivity)
      end.
      apply Hreport.
    + right. eexists. unfold bind, gets, ret. cbv beta iota.
      match goal with
      | |- report_made _ _ _ ?r =>
          replace r with
            (match set_status (PyStr "error")
                     (PyStr ("Exception while running timid: " ++ str))
                     (py_of_opt (status_url (self st))) st with
             | (inl x, st') => (inl x, st')
             | (inr _, st') => (inr tt, st')
             end)
            by (destruct (set_status _ _ _ st) as [[x|[]] st']; reflexivity)
      end.
      apply Hreport.
    + unfold bind, gets, ret. cbv beta iota.
      destruct (last_status (self st)) as [d0|]; [|left; reflexivity].
      destruct (str_equals "pending" (status d0)); [|left; reflexivity].
      right. eexists.
      match goal with
      | |- report_made _ _ _ ?r =>
          replace r with
            (match set_status (PyStr "failure")
                     (PyStr ("Testing failed: " ++ str))
                     (py_of_opt (status_url (self st))) st with
             | (inl x, st') => (inl x, st')
             | (inr _, st') => (inr tt, st')
             end)
            by (destruct (set_status _ _ _ st) as [[x|[]] st']; reflexivity)
      end.
      apply Hreport.
Qed.

Lemma run_callback_final_status (cb : Callback) (st : GhState) :
  final_status (self (snd (callback cb st))) = final_status (self st).
Proof.
  destruct (run_callback_cases cb st) as [-> | [d [_ Hd]]]; [reflexivity|].
  destruct (create_status _ _); destruct Hd as [_ ->]; reflexivity.
Qed.

Lemma run_callbacks_final_status (cbs : list Callback) : forall st,
  final_status (self (snd (callbacks cbs st))) = final_status (self st).
Proof.
  induction cbs as [|cb cbs IH]; intros st; [reflexivity|].
  cbn [run_callbacks]. unfold bind.
  pose proof (run_callback_final_status cb st) as Hcb.
  destruct (callback cb st) as [[x|[]] st1]; cbn [snd] in *.
  - exact Hcb.
  - rewrite IH. exact Hcb.
Qed.

(** When the API accepts every request, a report records itself. *)
Lemma set_status_accepted (s t u : PyVal) (st : GhState) :
  (forall log c, create_status log c = None) ->
  set_status s t u st =
  (inr tt,
   mkGh (record_status (self st) (mkStatus s t u))
        (api_log st ++ [mkApiEvent (wire (mkStatus s t u)) None])).
Proof. intros Hok. rewrite set_status_run, Hok. reflexivity. Qed.

Local Notation accepted d := (mkApiEvent (wire d) None).

(** C8.  A callback ([pre_step], [post_step] or [finalize]) either makes no
    report and leaves the extension as it is, or makes exactly one request
    to the last commit.  The field [last_status] is written after that
    request and only when it went through, and it then holds the reported
    status, text and url, whose transmitted form ([wire]) is the request;
    when the request raises, the object is unchanged.  So the field keeps
    mirroring the last request that went through. *)
Theorem last_status_mirrors_transmission (cb : Callback) (st : GhState) :
  mirrors st ->
  mirrors (snd (callback cb st)) /\
  (callback cb st = (inr tt, st) \/
   exists d, report_made create_status d st (callback cb st)).
Proof.
  intros Hst. split; [|apply run_callback_cases].
  destruct (run_callback_cases cb st) as [-> | [d [Hlog Hd]]];
    [exact Hst|].
  unfold mirrors in *. rewrite Hlog, transmitted_snoc.
  destruct (create_status _ _); destruct Hd as [_ ->].
  - exact Hst.
  - rewrite last_opt_snoc. reflexivity.
Qed.

(** C10.  [pre_step] returns [None] whenever it returns (it raises only
    what the status request raises): never a true value, so the extension
    never asks for a step to be skipped. *)
Theorem pre_step_returns_none (step : Step) (idx : nat) (st : GhState) :
  fst (on_pre_step step idx st) =
    match create_status (api_log st)
            (wire (mkStatus (PyStr "pending") (PyStr (name step))
                            (py_of_opt (status_url (self st))))) with
    | None => inr PyNone
    | Some x => inl x
    end /\
  forall v, fst (on_pre_step step idx st) = inr v ->
            v = PyNone /\ truthy v = false.
Proof.
  unfold pre_step, bind, gets, ret. cbv beta iota.
  rewrite set_status_run.
  destruct (create_status _ _); cbn [fst]; split; try reflexivity.
  - intros v Hv. discriminate Hv.
  - intros v Hv. injection Hv as <-. split; reflexivity.
Qed.

(** C6.  After any run of callbacks, [finalize(None)] makes exactly one
    request, the final status the extension was built with (the defaults
    as the overrides changed them), and returns [None] when the request
    goes through. *)
Theorem finalize_none_reports_final_status (cbs : list Callback)
    (st0 : GhState) :
  api_log (snd (on_finalize ResNone (snd (callbacks cbs st0)))) =
    api_log (snd (callbacks cbs st0)) ++
    [mkApiEvent (wire (final_status (self st0)))
       (create_status (api_log (snd (callbacks cbs st0)))
          (wire (final_status (self st0))))] /\
  fst (on_finalize ResNone (snd (callbacks cbs st0))) =
    match create_status (api_log (snd (callbacks cbs st0)))
            (wire (final_status (self st0))) with
    | None => inr ResNone
    | Some x => inl x
    end.
Proof.
  pose proof (run_callbacks_final_status cbs st0) as Hfs.
  set (st := snd (callbacks cbs st0)) in *.
  unfold finalize, bind, gets, ret. cbv beta iota.
  rewrite set_status_run.
  assert (Hd : mkStatus (status (final_status (self st)))
                        (text (final_status (self st)))
                        (url (final_status (self st))) =
               final_status (self st0)).
  { rewrite Hfs. destruct (final_status (self st0)); reflexivity. }
  rewrite Hd.
  destruct (create_status _ _); split; reflexivity.
Qed.

(** C5.  When [pre_step] for step A is the only callback before
    [finalize] and the result [v] is neither [None] nor an exception,
    exactly two reports are made, in this order: pending with the name of
    A, then failure with "Testing failed: v"; both carry the status URL.
    The API is taken to accept the requests. *)
Theorem finalize_after_lone_pre_step (A : Step) (idx : nat) (v : string)
    (st : GhState) :
  (forall log c, create_status log c = None) ->
  bind (on_pre_step A idx) (fun _ => on_finalize (ResOther v)) st =
  (inr (ResOther v),
   mkGh (record_status (self st)
           (mkStatus (PyStr "failure") (PyStr ("Testing failed: " ++ v))
                     (py_of_opt (status_url (self st)))))
        (api_log st ++
         [accepted (mkStatus (PyStr "pending") (PyStr (name A))
                             (py_of_opt (status_url (self st))));
          accepted (mkStatus (PyStr "failure")
                             (PyStr ("Testing failed: " ++ v))
                             (py_of_opt (status_url (self st))))])).
Proof.
  intros Hok.
  unfold pre_step, finalize, bind, gets, ret.
  cbv beta iota.
  rewrite set_status_accepted by assumption.
  cbn [self last_status record_status status str_equals String.eqb
       Ascii.eqb Bool.eqb].
  rewrite set_status_accepted by assumption.
  cbn [self api_log status_url record_status].
  rewrite <- app_assoc. reflexivity.
Qed.

(** C1, as the code has it.  For the callbacks [pre_step A],
    [post_step A] with a true result, [pre_step B], [post_step B] with a
    failure whose message is "oops", the reports are pending/A, pending/B
    and failure/"oops": every [pre_step] reports.  [finalize] with a result
    that is neither [None] nor an exception then adds no report, because
    the last status is "failure", and returns the result. *)
Theorem reconcile_failed_second_step (A B : Step) (iA iB : nat)
    (rA rB : StepResult) (v : string) (st : GhState) :
  (forall log c, create_status log c = None) ->
  result_bool rA = true ->
  result_bool rB = false ->
  state rB = FAILURE ->
  msg rB = Some "oops" ->
  exists st4,
    callbacks [CbPreStep A iA; CbPostStep A iA rA;
                   CbPreStep B iB; CbPostStep B iB rB] st = (inr tt, st4) /\
    api_log st4 =
      api_log st ++
      [accepted (mkStatus (PyStr "pending") (PyStr (name A))
                          (py_of_opt (status_url (self st))));
       accepted (mkStatus (PyStr "pending") (PyStr (name B))
                          (py_of_opt (status_url (self st))));
       accepted (mkStatus (PyStr "failure") (PyStr "oops")
                          (py_of_opt (status_url (self st))))] /\
    last_status (self st4) =
      Some (mkStatus (PyStr "failure") (PyStr "oops")
                     (py_of_opt (status_url (self st)))) /\
    on_finalize (ResOther v) st4 = (inr (ResOther v), st4).
Proof.
  intros Hok HrA HrB Hstate Hmsg.
  eexists. split; [|split; [|split]].
  - cbn [run_callbacks run_callback].
    unfold post_step, pre_step.
    rewrite HrA, HrB, Hstate, Hmsg.
    cbn [negb opt_truthy py_of_opt truthy String.eqb].
    unfold bind, gets, ret. cbv beta iota.
    rewrite set_status_accepted by assumption.
    cbn [self status_url record_status].
    rewrite set_status_accepted by assumption.
    cbn [self status_url record_status api_log].
    rewrite set_status_accepted by assumption.
    cbn [self status_url record_status api_log].
    reflexivity.
  - cbn [api_log]. rewrite <- !app_assoc. reflexivity.
  - reflexivity.
  - unfold finalize, bind, gets, ret. cbv beta iota.
    cbn [self last_status record_status status].
    reflexivity.
Qed.

End ExtensionFacts.

(** ** The theorems at sample runs *)

Lemma git_retries_until_success_witness :
  _git flaky_spawn plain_quote ["spam"; "arg1"; "arg2"] 5 true work_env =
    (inr "final success",
     mkEnv "/work/dir"
       [EvCall ["git"; "spam"; "arg1"; "arg2"]; EvSleep 1;
        EvCall ["git"; "spam"; "arg1"; "arg2"]; EvSleep 2;
        EvCall ["git"; "spam"; "arg1"; "arg2"]; EvSleep 4;
        EvCall ["git"; "spam"; "arg1"; "arg2"]; EvSleep 8;
        EvCall ["git"; "spam"; "arg1"; "arg2"]]) /\
  count_calls (attempt_events ["git"; "spam"; "arg1"; "arg2"] 5) = 5%nat /\
  sleeps_of (attempt_events ["git"; "spam"; "arg1"; "arg2"] 5) = [1; 2; 4; 8].
Proof.
  apply (git_retries_until_success flaky_spawn plain_quote 5
           ["spam"; "arg1"; "arg2"] true work_env).
  - lia.
  - intros i Hi.
    do 4 (destruct i as [|i];
          [vm_compute; split;
           [intros H; discriminate H|auto]|]).
    lia.
  - reflexivity.
Defined.

Lemma git_retries_exhausted_witness :
  _git dead_spawn plain_quote ["spam"; "arg1"; "arg2"] 2 true work_env =
    (inl (GitException
            ("Git command " ++ dquote ++ "git spam arg1 arg2" ++ dquote ++
             " returned 255")),
     mkEnv "/work/dir"
       [EvCall ["git"; "spam"; "arg1"; "arg2"]; EvSleep 1;
        EvCall ["git"; "spam"; "arg1"; "arg2"]]) /\
  255 <> 0 /\
  count_calls (attempt_events ["git"; "spam"; "arg1"; "arg2"] 2) = 2%nat /\
  List.length (sleeps_of (attempt_events ["git"; "spam"; "arg1"; "arg2"] 2))
    = 1%nat.
Proof.
  apply (git_retries_exhausted dead_spawn plain_quote 2
           ["spam"; "arg1"; "arg2"] work_env).
  - lia.
  - intros i Hi. vm_compute. split; [intros H; discriminate H|auto].
Defined.

Lemma git_no_raise_returns_stdout_witness :
  exists k, (1 <= k <= 1)%nat /\
    _git failing_spawn plain_quote ["rebase"; "--abort"] 1 false work_env =
      (inr (stdout (failing_spawn (k - 1) ["git"; "rebase"; "--abort"])),
       mkEnv "/work/dir"
         (attempt_events ["git"; "rebase"; "--abort"] k)).
Proof.
  apply (git_no_raise_returns_stdout failing_spawn plain_quote 1
           ["rebase"; "--abort"] work_env).
  lia.
Defined.

Lemma clone_action_branches_witness :
  (* absent *)
  (exists rest,
     trace (snd (CloneAction_call ok_spawn plain_quote lstat_absent isdir_no
                   removal_works removal_works sample_ghe work_env)) =
       EvCall ["git"; "clone"; "repo://url"; "/work/dir/repo"] :: rest /\
     removals_of rest = []) /\
  (* a file *)
  (exists rest,
     trace (snd (CloneAction_call ok_spawn plain_quote lstat_file isdir_no
                   removal_works removal_works sample_ghe work_env)) =
       EvRemove "/work/dir/repo" ::
       EvCall ["git"; "clone"; "repo://url"; "/work/dir/repo"] :: rest /\
     removals_of rest = []) /\
  (* a directory that is no repository *)
  (exists rest,
     trace (snd (CloneAction_call ok_spawn plain_quote lstat_dir isdir_no
                   removal_works removal_works sample_ghe work_env)) =
       EvRmtree "/work/dir/repo" ::
       EvCall ["git"; "clone"; "repo://url"; "/work/dir/repo"] :: rest /\
     removals_of rest = []) /\
  (* a repository, updated in place *)
  (cwd (snd (CloneAction_call ok_spawn plain_quote lstat_dir isdir_yes
               removal_works removal_works sample_ghe work_env)) =
     "/work/dir/repo" /\
   removals_of
     (trace (snd (CloneAction_call ok_spawn plain_quote lstat_dir isdir_yes
                    removal_works removal_works sample_ghe work_env))) = []) /\
  (* a repository whose update fails *)
  (exists upd rest,
     trace (snd (CloneAction_call stumbling_spawn plain_quote lstat_dir
                   isdir_yes removal_works removal_works sample_ghe
                   work_env)) =
       upd ++ EvRmtree "/work/dir/repo" ::
       EvCall ["git"; "clone"; "repo://url"; "/work/dir/repo"] :: rest /\
     removals_of upd = [] /\ removals_of rest = []).
Proof.
  split; [|split; [|split; [|split]]].
  - apply (proj1 (clone_action_branches ok_spawn plain_quote lstat_absent
                    isdir_no removal_works removal_works sample_ghe
                    work_env)).
    reflexivity.
  - apply (proj1 (proj2 (clone_action_branches ok_spawn plain_quote
                           lstat_file isdir_no removal_works removal_works
                           sample_ghe work_env)) 33188);
      reflexivity.
  - apply (proj1 (proj2 (proj2 (clone_action_branches ok_spawn plain_quote
                                  lstat_dir isdir_no removal_works
                                  removal_works sample_ghe work_env)))
             16877);
      reflexivity.
  - destruct (proj1 (proj2 (proj2 (proj2
               (clone_action_branches ok_spawn plain_quote lstat_dir
                  isdir_yes removal_works removal_works sample_ghe
                  work_env))))
               16877
               (mkStepResult SUCCESS None)
               (snd (_update ok_spawn plain_quote sample_ghe
                       (mkEnv "/work/dir/repo" []))))
      as [Hcall [Hcwd [new [Hnew [_ Hrem]]]]];
      try reflexivity.
    rewrite Hcall. cbn [snd]. split; [exact Hcwd|].
    rewrite Hnew. exact Hrem.
  - apply (proj2 (proj2 (proj2 (proj2
             (clone_action_branches stumbling_spawn plain_quote lstat_dir
                isdir_yes removal_works removal_works sample_ghe
                work_env))))
             16877
             (GitException
                ("Git command " ++ dquote ++
                 "git remote set-url origin repo://url" ++ dquote ++
                 " returned 128"))
             (mkEnv "/work/dir/repo"
                [EvCall ["git"; "remote"; "set-url"; "origin";
                         "repo://url"]]));
      reflexivity.
Defined.

Lemma override_precedence_witness :
  activate_final_status sample_json_loads sample_args =
    inr (mkStatus (PyStr "status2") (PyStr "t") (PyStr "u")).
Proof.
  apply (override_precedence sample_json_loads sample_args override_document
           [("status", PyStr "override"); ("text", PyStr "t");
            ("url", PyStr "u")]);
    try reflexivity.
  intros H; discriminate H.
Defined.

Lemma last_status_mirrors_transmission_witness :
  mirrors
    (snd (run_callback api_accepts sample_result_bool sample_state_str
            (CbPreStep (mkStep "A") 0) fresh_state)) /\
  (run_callback api_accepts sample_result_bool sample_state_str
     (CbPreStep (mkStep "A") 0) fresh_state = (inr tt, fresh_state) \/
   exists d,
     report_made api_accepts d fresh_state
       (run_callback api_accepts sample_result_bool sample_state_str
          (CbPreStep (mkStep "A") 0) fresh_state)).
Proof.
  apply (last_status_mirrors_transmission api_accepts sample_result_bool
           sample_state_str (CbPreStep (mkStep "A") 0) fresh_state).
  reflexivity.
Defined.

Lemma finalize_after_lone_pre_step_witness :
  requests
    (api_log
       (snd (bind (pre_step api_accepts (mkStep "A") 0)
                  (fun _ => finalize api_accepts (ResOther "boom"))
                  fresh_state))) =
    [mkCall (PyStr "pending") (Given (PyStr "https://ci.example.com/run"))
            (Given (PyStr "A"));
     mkCall (PyStr "failure") (Given (PyStr "https://ci.example.com/run"))
            (Given (PyStr "Testing failed: boom"))].
Proof.
  rewrite (finalize_after_lone_pre_step api_accepts (mkStep "A") 0 "boom"
             fresh_state).
  - reflexivity.
  - intros log c. reflexivity.
Defined.

Lemma reconcile_failed_second_step_witness :
  exists st4,
    run_callbacks api_accepts sample_result_bool sample_state_str
      [CbPreStep (mkStep "A") 0;
       CbPostStep (mkStep "A") 0 (mkStepResult SUCCESS None);
       CbPreStep (mkStep "B") 1;
       CbPostStep (mkStep "B") 1 (mkStepResult FAILURE (Some "oops"))]
      fresh_state = (inr tt, st4) /\
    requests (api_log st4) =
      [mkCall (PyStr "pending") (Given (PyStr "https://ci.example.com/run"))
              (Given (PyStr "A"));
       mkCall (PyStr "pending") (Given (PyStr "https://ci.example.com/run"))
              (Given (PyStr "B"));
       mkCall (PyStr "failure") (Given (PyStr "https://ci.example.com/run"))
              (Given (PyStr "oops"))] /\
    finalize api_accepts (ResOther "boom") st4 = (inr (ResOther "boom"), st4).
Proof.
  destruct (reconcile_failed_second_step api_accepts sample_result_bool
              sample_state_str (mkStep "A") (mkStep "B") 0 1
              (mkStepResult SUCCESS None)
              (mkStepResult FAILURE (Some "oops")) "boom" fresh_state)
    as [st4 [Hrun [Hlog [_ Hfin]]]]; try reflexivity.
  exists st4. split; [exact Hrun|]. split; [|exact Hfin].
  rewrite Hlog. reflexivity.
Defined.

(** C1, as the claim words it, fails: with steps A and B the run makes three
    reports, not the two reports pending/A and failure/"oops". *)
Lemma reconcile_two_reports_refuted :
  requests
    (api_log
       (snd (bind (run_callbacks api_accepts sample_result_bool
                     sample_state_str
                     [CbPreStep (mkStep "A") 0;
                      CbPostStep (mkStep "A") 0 (mkStepResult SUCCESS None);
                      CbPreStep (mkStep "B") 1;
                      CbPostStep (mkStep "B") 1
                        (mkStepResult FAILURE (Some "oops"))])
                  (fun _ => finalize api_accepts (ResOther "boom"))
                  fresh_state))) <>
    [mkCall (PyStr "pending") (Given (PyStr "https://ci.example.com/run"))
            (Given (PyStr "A"));
     mkCall (PyStr "failure") (Given (PyStr "https://ci.example.com/run"))
            (Given (PyStr "oops"))].
Proof.
  intros H. vm_compute in H. discriminate H.
Qed.

(** * Further properties of the code *)

(** ** Byte strings *)

Lemma prefix_iff (p s : string) :
  String.prefix p s = true <-> exists t, s = (p ++ t)%string.
Proof.
  revert s. induction p as [|a p IH]; intros s.
  - split; [intros _; exists s; reflexivity|].
    intros _. destruct s; reflexivity.
  - destruct s as [|b s]; simpl.
    + split; [discriminate|]. intros [t Ht]. discriminate Ht.
    + destruct (ascii_dec a b) as [->|Hne].
      * rewrite IH. split; intros [t Ht]; exists t; [rewrite Ht|];
          [reflexivity|injection Ht as Ht; exact Ht].
      * split; [discriminate|]. intros [t Ht].
        injection Ht as Hab _. congruence.
Qed.

Lemma bytes_in_iff (needle hay : string) :
  bytes_in needle hay = true <->
  exists before after, hay = (before ++ needle ++ after)%string.
Proof.
  induction hay as [|c hay IH].
  - cbn [bytes_in]. rewrite orb_false_r, prefix_iff. split.
    + intros [t Ht]. exists EmptyString, t. exact Ht.
    + intros [[|b before] [after H]]; [exists after; exact H|].
      discriminate H.
  - cbn [bytes_in]. rewrite orb_true_iff, prefix_iff, IH. split.
    + intros [[t Ht] | [before [after H]]].
      * exists EmptyString, t. exact Ht.
      * exists (String c before), after. rewrite H. reflexivity.
    + intros [[|b before] [after H]].
      * left. exists after. exact H.
      * right. injection H as _ H. exists before, after. exact H.
Qed.

(** ** More on the command runner *)

Section RunnerMore.

Variable spawn : nat -> list string -> Child.
Variable shlex_quote : string -> string.

Local Notation loop := (git_loop spawn).
Local Notation git := (_git spawn shlex_quote).
Local Notation nth_run e args i :=
  (spawn (count_calls (trace e) + i) ("git" :: args)).
Local Notation outcome := (git_outcome shlex_quote).

(** An execution that is no SSH failure ends the loop at once. *)
Lemma git_settles args R do_raise e :
  1 <= R ->
  ssh_failed (nth_run e args 0%nat) = false ->
  git args R do_raise e =
    (outcome ("git" :: args) do_raise (nth_run e args 0%nat),
     mkEnv (cwd e) (trace e ++ [EvCall ("git" :: args)])).
Proof.
  intros HR Hfirst. rewrite Nat.add_0_r in *.
  unfold _git, bind. rewrite git_first_try by assumption.
  rewrite Hfirst. unfold git_outcome.
  destruct (do_raise && _); reflexivity.
Qed.

(** X1.  When the first execution exits with 0, or fails without the SSH
    marker in its output, [_git] runs the subprocess once and never sleeps,
    whatever the number of tries allowed; it raises only if [do_raise] is
    set and the exit code is not 0, and returns the standard output
    otherwise. *)
Theorem git_no_retry_without_marker (args : list string) (R : Z)
    (do_raise : bool) (e : Env) :
  1 <= R ->
  returncode (nth_run e args 0%nat) = 0 \/
  (bytes_in SSH_ERROR (stdout (nth_run e args 0%nat)) = false /\
   bytes_in SSH_ERROR (stderr (nth_run e args 0%nat)) = false) ->
  git args R do_raise e =
    (outcome ("git" :: args) do_raise (nth_run e args 0%nat),
     mkEnv (cwd e) (trace e ++ [EvCall ("git" :: args)])) /\
  sleeps_of (trace (snd (git args R do_raise e))) = sleeps_of (trace e).
Proof.
  intros HR Hfirst.
  assert (Hs : ssh_failed (nth_run e args 0%nat) = false).
  { unfold ssh_failed. destruct Hfirst as [-> | [-> ->]];
      [reflexivity|apply andb_false_r]. }
  rewrite (git_settles _ _ _ _ HR Hs). split; [reflexivity|].
  cbn [snd trace]. rewrite sleeps_of_app. cbn [sleeps_of].
  apply app_nil_r.
Qed.

(** X2.  With no try allowed ([ssh_retries <= 0]) [_git] runs nothing and
    fails on a variable the loop never bound: [child] when [do_raise] is
    set, [stdout] otherwise. *)
Theorem git_without_tries (args : list string) (R : Z) (do_raise : bool)
    (e : Env) :
  R <= 0 ->
  git args R do_raise e =
    (inl (UnboundLocalError (if do_raise then "child" else "stdout")), e).
Proof.
  intros HR. unfold _git, bind.
  replace (Z.to_nat R) with O by lia. cbn [git_loop ret].
  destruct do_raise; reflexivity.
Qed.

(** The further tries of the loop: [m] of them, all but the last SSH
    failures, and the last one no SSH failure unless the tries ran out. *)
Lemma git_loop_shape cmd R : forall fuel s k c e,
  1 <= k -> fuel = Z.to_nat (R - k) ->
  exists m, (m <= fuel)%nat /\
    loop fuel cmd R s k c e =
      (inr match m with
           | O => c
           | S m' => Some (spawn (count_calls (trace e) + m') cmd)
           end,
       mkEnv (cwd e) (trace e ++ retry_events cmd s m)) /\
    (forall i, (S i < m)%nat ->
       ssh_failed (spawn (count_calls (trace e) + i) cmd) = true) /\
    ((m < fuel)%nat ->
       exists m', m = S m' /\
         ssh_failed (spawn (count_calls (trace e) + m') cmd) = false).
Proof.
  induction fuel as [|fuel IH]; intros s k c e Hk Hfuel.
  - exists O. repeat split; try lia.
    cbn [retry_events git_loop]. rewrite env_eta. reflexivity.
  - cbn [git_loop].
    destruct (Z.ltb_spec k R); [|lia].
    destruct (Z.ltb_spec 1 (k + 1)); [|lia].
    unfold bind, time_sleep, emit, modify, ret, environment_call.
    cbn [trace cwd].
    assert (Hc : count_calls ((trace e ++ [EvSleep s]) ++ [EvCall cmd]) =
                 S (count_calls (trace e)))
      by (rewrite !count_calls_app; simpl; lia).
    rewrite count_calls_app; cbn [count_calls]; rewrite Nat.add_0_r.
    destruct (ssh_failed (spawn (count_calls (trace e)) cmd)) eqn:Hfirst.
    + destruct (IH (Z.shiftl s 1) (k + 1)
                   (Some (spawn (count_calls (trace e)) cmd))
                   (mkEnv (cwd e) ((trace e ++ [EvSleep s]) ++ [EvCall cmd])))
        as [m [Hm [Hrun [Hfail Hstop]]]]; [lia|lia|].
      cbn [trace cwd] in *. rewrite Hc in *.
      exists (S m). split; [lia|]. split; [|split].
      * rewrite Hrun. rewrite <- !app_assoc. cbn [retry_events app].
        destruct m as [|m]; [rewrite Nat.add_0_r; reflexivity|].
        replace (S (count_calls (trace e)) + m)%nat
          with (count_calls (trace e) + S m)%nat by lia.
        reflexivity.
      * intros [|i] Hi; [rewrite Nat.add_0_r; exact Hfirst|].
        replace (count_calls (trace e) + S i)%nat
          with (S (count_calls (trace e)) + i)%nat by lia.
        apply Hfail. lia.
      * intros Hlt. destruct (Hstop ltac:(lia)) as [m' [-> Hlast]].
        exists (S m'). split; [reflexivity|].
        replace (count_calls (trace e) + S m')%nat
          with (S (count_calls (trace e)) + m')%nat by lia.
        exact Hlast.
    + exists 1%nat. split; [lia|]. split; [|split].
      * rewrite <- !app_assoc, Nat.add_0_r. reflexivity.
      * intros i Hi. lia.
      * intros _. exists O. split; [reflexivity|].
        rewrite Nat.add_0_r. exact Hfirst.
Qed.

(** The shape of every run of [_git] that is allowed a try. *)
Lemma git_shape args R do_raise e :
  1 <= R ->
  exists k, (1 <= k <= Z.to_nat R)%nat /\
    git args R do_raise e =
      (outcome ("git" :: args) do_raise (nth_run e args (k - 1)%nat),
       mkEnv (cwd e) (trace e ++ attempt_events ("git" :: args) k)) /\
    (forall i, (S i < k)%nat -> ssh_failed (nth_run e args i) = true) /\
    ((k < Z.to_nat R)%nat ->
       ssh_failed (nth_run e args (k - 1)%nat) = false).
Proof.
  intros HR. unfold _git, bind. rewrite git_first_try by lia.
  destruct (ssh_failed (spawn (count_calls (trace e)) ("git" :: args)))
    eqn:Hfirst.
  - destruct (git_loop_shape ("git" :: args) R (Z.to_nat R - 1) 1 1
                (Some (spawn (count_calls (trace e)) ("git" :: args)))
                (mkEnv (cwd e) (trace e ++ [EvCall ("git" :: args)])))
      as [m [Hm [Hrun [Hfail Hstop]]]]; [lia|lia|].
    cbn [trace cwd] in *.
    assert (Hc : count_calls (trace e ++ [EvCall ("git" :: args)]) =
                 S (count_calls (trace e)))
      by (rewrite count_calls_app; simpl; lia).
    rewrite Hc in *.
    exists (S m). split; [lia|].
    rewrite Nat.sub_succ, Nat.sub_0_r. split; [|split].
    + rewrite Hrun. unfold attempt_events, git_outcome.
      rewrite Nat.sub_succ, Nat.sub_0_r, <- app_assoc. cbn [app].
      destruct m as [|m].
      * rewrite Nat.add_0_r. destruct (do_raise && _); reflexivity.
      * replace (S (count_calls (trace e)) + m)%nat
          with (count_calls (trace e) + S m)%nat by lia.
        destruct (do_raise && _); reflexivity.
    + intros [|i] Hi; [rewrite Nat.add_0_r; exact Hfirst|].
      replace (count_calls (trace e) + S i)%nat
        with (S (count_calls (trace e)) + i)%nat by lia.
      apply Hfail. lia.
    + intros Hlt. destruct (Hstop ltac:(lia)) as [m' [-> Hlast]].
      replace (count_calls (trace e) + S m')%nat
        with (S (count_calls (trace e)) + m')%nat by lia.
      exact Hlast.
  - exists 1%nat. split; [lia|]. cbn [Nat.sub]. rewrite Nat.add_0_r.
    split; [|split].
    + unfold git_outcome. destruct (do_raise && _); reflexivity.
    + intros i Hi. lia.
    + intros _. exact Hfirst.
Qed.

(** X3.  Every run of [_git] that is allowed a try is some number [k] of
    executions within the budget, with the back-off sleeps between them.
    All executions before the last were SSH failures; the run stops short
    of the budget only at an execution that is no SSH failure; and the
    answer depends on the last execution alone: [GitException] when
    [do_raise] is set and it exited non-zero, its standard output
    otherwise. *)
Theorem git_run_shape (args : list string) (R : Z) (do_raise : bool)
    (e : Env) :
  1 <= R ->
  exists k, (1 <= k <= Z.to_nat R)%nat /\
    git args R do_raise e =
      (outcome ("git" :: args) do_raise (nth_run e args (k - 1)%nat),
       mkEnv (cwd e) (trace e ++ attempt_events ("git" :: args) k)) /\
    (forall i, (S i < k)%nat -> ssh_failed (nth_run e args i) = true) /\
    ((k < Z.to_nat R)%nat ->
       ssh_failed (nth_run e args (k - 1)%nat) = false).
Proof. apply git_shape. Qed.

Lemma total_sleep_app (t u : list Event) :
  total_sleep (t ++ u) = total_sleep t + total_sleep u.
Proof.
  unfold total_sleep. rewrite sleeps_of_app.
  induction (sleeps_of t) as [|d l IH]; simpl; lia.
Qed.

Lemma total_sleep_retry_events cmd : forall n s,
  total_sleep (retry_events cmd s n) = s * (2 ^ Z.of_nat n - 1).
Proof.
  unfold total_sleep.
  induction n as [|n IH]; intros s; [simpl; lia|].
  cbn [retry_events sleeps_of fold_right]. rewrite IH.
  rewrite Z.shiftl_mul_pow2 by lia.
  rewrite Nat2Z.inj_succ, Z.pow_succ_r by lia. lia.
Qed.

(** X4.  The time [_git] sleeps is bounded by its budget alone: with
    [ssh_retries = R >= 1] it sleeps for at most [2^(R-1) - 1] units in
    all, whatever the subprocesses do. *)
Theorem git_total_sleep_bound (args : list string) (R : Z) (do_raise : bool)
    (e : Env) :
  1 <= R ->
  total_sleep (trace e) <= total_sleep (trace (snd (git args R do_raise e)))
    <= total_sleep (trace e) + (2 ^ (R - 1) - 1).
Proof.
  intros HR.
  destruct (git_shape args R do_raise e HR) as [k [Hk [Hrun _]]].
  rewrite Hrun. cbn [snd trace]. rewrite total_sleep_app.
  unfold attempt_events.
  change (EvCall ("git" :: args) :: retry_events ("git" :: args) 1 (k - 1))
    with ([EvCall ("git" :: args)] ++
          retry_events ("git" :: args) 1 (k - 1)).
  rewrite total_sleep_app, total_sleep_retry_events.
  change (total_sleep [EvCall ("git" :: args)]) with 0.
  assert (Hpow : 1 <= 2 ^ Z.of_nat (k - 1) <= 2 ^ (R - 1)).
  { split.
    - apply (Z.pow_le_mono_r 2 0); lia.
    - apply Z.pow_le_mono_r; lia. }
  lia.
Qed.


End RunnerMore.

(** ** What the actions raise *)

Lemma raises_only_ret {S A} (P : Exn -> Prop) (a : A) :
  raises_only P (@ret S A a).
Proof. intros s x H. discriminate H. Qed.

Lemma raises_only_bind {S A B} (P : Exn -> Prop) (m : M S A)
    (k : A -> M S B) :
  raises_only P m -> (forall a, raises_only P (k a)) ->
  raises_only P (bind m k).
Proof.
  intros Hm Hk s x. unfold bind. specialize (Hm s).
  destruct (m s) as [[y|a] s1]; cbn [fst] in *.
  - intros H. injection H as <-. apply Hm. reflexivity.
  - apply Hk.
Qed.

Lemma raises_only_weaken {S A} (P Q : Exn -> Prop) (m : M S A) :
  (forall x, P x -> Q x) -> raises_only P m -> raises_only Q m.
Proof. intros HPQ Hm s x H. apply HPQ, (Hm s), H. Qed.

(** ** The merge action and more on the clone action *)

Section ActionsMore.

Variable spawn : nat -> list string -> Child.
Variable shlex_quote : string -> string.
Variable os_lstat : string -> LstatResult.
Variable os_path_isdir : string -> bool.
Variable os_remove_error : string -> option Exn.
Variable shutil_rmtree_error : string -> option Exn.
Variable ghe : GithubExtension.
Variable pull_user_login : string.

Local Notation git := (_git spawn shlex_quote).
Local Notation outcome := (git_outcome shlex_quote).
Local Notation update := (_update spawn shlex_quote ghe).
Local Notation clone := (_clone spawn shlex_quote ghe).
Local Notation clone_action :=
  (CloneAction_call spawn shlex_quote os_lstat os_path_isdir
     os_remove_error shutil_rmtree_error ghe).
Local Notation merge_action :=
  (MergeAction_call spawn shlex_quote ghe pull_user_login).
Local Notation repo_dir e := (os_path_join (cwd e) (repo_name ghe)).
Local Notation success := (mkStepResult SUCCESS None).
Local Notation failed := (failure_of shlex_quote).

(** A call with one try is one execution. *)
Lemma git_single_at args do_raise d t n :
  count_calls t = n ->
  git args 1 do_raise (mkEnv d t) =
    (outcome ("git" :: args) do_raise (spawn n ("git" :: args)),
     mkEnv d (t ++ [EvCall ("git" :: args)])).
Proof.
  intros <-. unfold _git, bind. rewrite git_first_try by lia.
  change (Z.to_nat 1 - 1)%nat with O.
  cbn [trace cwd git_loop]. unfold ret at 1.
  unfold git_outcome.
  destruct (ssh_failed _); destruct (do_raise && _); reflexivity.
Qed.

(** A call whose first execution exits with 0 returns after it. *)
Lemma git_ok_at args R do_raise d t n :
  1 <= R -> count_calls t = n ->
  returncode (spawn n ("git" :: args)) = 0 ->
  git args R do_raise (mkEnv d t) =
    (inr (stdout (spawn n ("git" :: args))),
     mkEnv d (t ++ [EvCall ("git" :: args)])).
Proof.
  intros HR <- Hrc.
  rewrite (git_settles spawn shlex_quote args R do_raise (mkEnv d t) HR).
  - cbn [trace cwd]. rewrite Nat.add_0_r. unfold git_outcome.
    rewrite Hrc, andb_false_r. reflexivity.
  - cbn [trace]. rewrite Nat.add_0_r. apply ssh_failed_zero, Hrc.
Qed.

Local Notation merge_rc e i :=
  (returncode (spawn (count_calls (trace e) + i)
                 (nth i (merge_commands ghe pull_user_login) []))).

Local Ltac count_trace :=
  rewrite ?count_calls_app; simpl; lia.

Local Notation merge_cmd i :=
  (nth i (merge_commands ghe pull_user_login) []).

(** The merge action, one execution after the other. *)
Lemma merge_action_run (d : string) (t : list Event) :
  merge_action (mkEnv d t) =
  let rc i := returncode (spawn (count_calls t + i) (merge_cmd i)) in
  let ran k :=
    mkEnv d (t ++ map EvCall (firstn k (merge_commands ghe pull_user_login)))
  in
  let raised i :=
    inl (GitException (git_message shlex_quote (merge_cmd i) (rc i))) in
  if negb (rc 1%nat =? 0) then (raised 1%nat, ran 2%nat)
  else if negb (rc 2%nat =? 0) then (raised 2%nat, ran 3%nat)
  else if negb (rc 3%nat =? 0) then (raised 3%nat, ran 4%nat)
  else if negb (rc 4%nat =? 0) then (raised 4%nat, ran 5%nat)
  else (inr success, ran 5%nat).
Proof.
  unfold MergeAction_call, merge_commands. cbn [nth firstn map].
  set (lb := (pull_user_login ++ "-" ++ change_branch ghe)%string).
  unfold bind.
  rewrite (git_single_at _ false d t (count_calls t) eq_refl).
  unfold git_outcome at 1. cbn [andb].
  rewrite (git_single_at _ true d _ (count_calls t + 1)) by count_trace.
  unfold git_outcome at 1. cbn [andb].
  destruct (negb _); [rewrite <- !app_assoc; reflexivity|].
  rewrite (git_single_at _ true d _ (count_calls t + 2)) by count_trace.
  unfold git_outcome at 1. cbn [andb].
  destruct (negb _); [rewrite <- !app_assoc; reflexivity|].
  rewrite (git_single_at _ true d _ (count_calls t + 3)) by count_trace.
  unfold git_outcome at 1. cbn [andb].
  destruct (negb _); [rewrite <- !app_assoc; reflexivity|].
  rewrite (git_single_at _ true d _ (count_calls t + 4)) by count_trace.
  unfold git_outcome at 1. cbn [andb].
  destruct (negb _); rewrite <- !app_assoc; reflexivity.
Qed.

(** X6.  [MergeAction.__call__] runs its five commands in order, once each
    and without sleeping, and stops at the first one after [git branch -D]
    that exits non-zero: [k] commands run, those between the first and the
    last exited with 0, and the action succeeds exactly when the last one
    did, raising the [GitException] of that command otherwise.  The exit
    code of [git branch -D] is never looked at, and the working directory
    is left alone. *)
Theorem merge_action_outcome (e : Env) :
  exists k, (2 <= k <= 5)%nat /\
    snd (merge_action e) =
      mkEnv (cwd e)
        (trace e ++
         map EvCall (firstn k (merge_commands ghe pull_user_login))) /\
    (forall i, (1 <= i < k - 1)%nat -> merge_rc e i = 0) /\
    ((k < 5)%nat -> merge_rc e (k - 1)%nat <> 0) /\
    fst (merge_action e) =
      if merge_rc e (k - 1)%nat =? 0 then inr success
      else inl (GitException
                  (git_message shlex_quote (merge_cmd (k - 1))
                     (merge_rc e (k - 1)%nat))).
Proof.
  destruct e as [d t]. cbn [trace cwd].
  rewrite merge_action_run. cbv beta zeta.
  destruct (Z.eqb_spec (returncode (spawn (count_calls t + 1) (merge_cmd 1)))
              0) as [H1|H1]; cbn [negb].
  2:{ exists 2%nat. cbn [Nat.sub fst snd].
      match goal with
      | |- context [Z.eqb ?x 0] =>
          destruct (Z.eqb_spec x 0); [contradiction|]
      end.
      split; [lia|]. split; [reflexivity|].
      split; [intros i Hi; lia|].
      split; [intros _; assumption|reflexivity]. }
  destruct (Z.eqb_spec (returncode (spawn (count_calls t + 2) (merge_cmd 2)))
              0) as [H2|H2]; cbn [negb].
  2:{ exists 3%nat. cbn [Nat.sub fst snd].
      match goal with
      | |- context [Z.eqb ?x 0] =>
          destruct (Z.eqb_spec x 0); [contradiction|]
      end.
      split; [lia|]. split; [reflexivity|].
      split; [intros i Hi; assert (i = 1%nat) as -> by lia; exact H1|].
      split; [intros _; assumption|reflexivity]. }
  destruct (Z.eqb_spec (returncode (spawn (count_calls t + 3) (merge_cmd 3)))
              0) as [H3|H3]; cbn [negb].
  2:{ exists 4%nat. cbn [Nat.sub fst snd].
      match goal with
      | |- context [Z.eqb ?x 0] =>
          destruct (Z.eqb_spec x 0); [contradiction|]
      end.
      split; [lia|]. split; [reflexivity|].
      split; [intros i Hi;
              assert (i = 1 \/ i = 2)%nat as [-> | ->] by lia; assumption|].
      split; [intros _; assumption|reflexivity]. }
  exists 5%nat. cbn [Nat.sub].
  assert (Hmid : forall i, (1 <= i < 4)%nat ->
            returncode (spawn (count_calls t + i) (merge_cmd i)) = 0).
  { intros i Hi.
    assert (i = 1 \/ i = 2 \/ i = 3)%nat as [-> | [-> | ->]] by lia;
      assumption. }
  destruct (Z.eqb_spec (returncode (spawn (count_calls t + 4) (merge_cmd 4)))
              0) as [H4|H4]; cbn [negb fst snd].
  - split; [lia|]. split; [reflexivity|]. split; [exact Hmid|].
    split; [intros Hk; lia|reflexivity].
  - split; [lia|]. split; [reflexivity|]. split; [exact Hmid|].
    split; [intros Hk; lia|reflexivity].
Qed.

Local Notation update_cmd i := (nth i (update_commands ghe) []).

(** X7.  When every command of [_update] but [git rebase --abort] exits
    with 0 at its first execution, [_update] runs its seven commands in
    order, once each and without sleeping, leaves the working directory
    alone and succeeds; whether [git rebase --abort] fails makes no
    difference. *)
Theorem update_runs_all (e : Env) :
  (forall i, In i [0; 2; 3; 4; 5; 6]%nat ->
     returncode (spawn (count_calls (trace e) + i) (update_cmd i)) = 0) ->
  update e =
    (inr success,
     mkEnv (cwd e) (trace e ++ map EvCall (update_commands ghe))).
Proof.
  intros Hok. destruct e as [d t]. cbn [trace cwd] in *.
  unfold _update, update_commands. cbn [map]. unfold bind.
  rewrite (git_ok_at _ 1 true d t (count_calls t + 0)); try lia;
    [|apply (Hok 0%nat); cbn; auto 10].
  rewrite (git_single_at _ false d _ (count_calls t + 1)) by count_trace.
  unfold git_outcome at 1. cbn [andb].
  rewrite (git_ok_at _ 1 true d _ (count_calls t + 2));
    [|lia|count_trace|apply (Hok 2%nat); cbn; auto 10].
  rewrite (git_ok_at _ 1 true d _ (count_calls t + 3));
    [|lia|count_trace|apply (Hok 3%nat); cbn; auto 10].
  rewrite (git_ok_at _ 1 true d _ (count_calls t + 4));
    [|lia|count_trace|apply (Hok 4%nat); cbn; auto 10].
  rewrite (git_ok_at _ 5 true d _ (count_calls t + 5));
    [|lia|count_trace|apply (Hok 5%nat); cbn; auto 10].
  rewrite (git_ok_at _ 1 true d _ (count_calls t + 6));
    [|lia|count_trace|apply (Hok 6%nat); cbn; auto 10].
  unfold ret. rewrite <- !app_assoc. reflexivity.
Qed.

(** What [_git] can raise when it is allowed a try: with [do_raise], the
    failure of its command; without, nothing. *)
Lemma git_raises args R :
  1 <= R -> raises_only (failed ("git" :: args)) (git args R true).
Proof.
  intros HR e x.
  destruct (git_shape spawn shlex_quote args R true e HR)
    as [k [_ [Hrun _]]].
  rewrite Hrun. cbn [fst]. unfold git_outcome. cbn [andb].
  destruct (Z.eqb_spec (returncode (spawn (count_calls (trace e) + (k - 1))
                                      ("git" :: args))) 0) as [H0|H0];
    cbn [negb]; [discriminate|].
  intros H. injection H as <-. eexists. split; [exact H0|reflexivity].
Qed.

Lemma git_quiet args R :
  1 <= R -> raises_only (fun _ => False) (git args R false).
Proof.
  intros HR e x.
  destruct (git_shape spawn shlex_quote args R false e HR)
    as [k [_ [Hrun _]]].
  rewrite Hrun. cbn [fst]. unfold git_outcome. cbn [andb]. discriminate.
Qed.

Lemma update_raises : raises_only (update_failure shlex_quote ghe) update.
Proof.
  assert (Hstep : forall i args R,
    In i [0; 2; 3; 4; 5; 6]%nat -> 1 <= R ->
    update_cmd i = "git" :: args ->
    raises_only (update_failure shlex_quote ghe) (git args R true)).
  { intros i args R Hi HR Hcmd.
    eapply raises_only_weaken; [|apply git_raises; exact HR].
    intros x Hx. exists i. rewrite Hcmd. split; assumption. }
  unfold _update.
  apply raises_only_bind;
    [apply (Hstep 0%nat); [cbn; auto 10|lia|reflexivity]|intros _].
  apply raises_only_bind;
    [eapply raises_only_weaken; [|apply git_quiet; lia];
     intros x []|intros _].
  apply raises_only_bind;
    [apply (Hstep 2%nat); [cbn; auto 10|lia|reflexivity]|intros _].
  apply raises_only_bind;
    [apply (Hstep 3%nat); [cbn; auto 10|lia|reflexivity]|intros _].
  apply raises_only_bind;
    [apply (Hstep 4%nat); [cbn; auto 10|lia|reflexivity]|intros _].
  apply raises_only_bind;
    [apply (Hstep 5%nat); [cbn; auto 10|lia|reflexivity]|intros _].
  apply raises_only_bind;
    [apply (Hstep 6%nat); [cbn; auto 10|lia|reflexivity]|intros _].
  apply raises_only_ret.
Qed.

Lemma update_returns_success (e : Env) (r : StepResult) :
  fst (update e) = inr r -> r = success.
Proof.
  unfold _update, bind.
  repeat match goal with
         | |- context [git ?a ?R ?b ?env] =>
             destruct (git a R b env) as [[?|?] ?]
         end; cbn [fst ret]; try discriminate.
  intros H. injection H as <-. reflexivity.
Qed.


Lemma failed_is_git_exception cmd x : failed cmd x -> is_git_exception x.
Proof. intros [rc [_ ->]]. eexists. reflexivity. Qed.

Lemma update_failure_is_git_exception x :
  update_failure shlex_quote ghe x -> is_git_exception x.
Proof. intros [i [_ H]]. eapply failed_is_git_exception, H. Qed.

Local Notation git_clone target_dir :=
  (git ["clone"; repo_url ghe; target_dir] 5 true).

Lemma clone_returns work_dir target_dir e r e' :
  clone work_dir target_dir e = (inr r, e') ->
  r = success /\ cwd e' = target_dir.
Proof.
  unfold _clone. unfold bind at 1.
  destruct (git_clone target_dir e) as [[x|out] e1]; [discriminate|].
  unfold try_except, set_cwd, modify. unfold bind at 1.
  pose proof (update_keeps_cwd spawn shlex_quote ghe
                (mkEnv target_dir (trace e1))) as Hcwd.
  pose proof (update_returns_success (mkEnv target_dir (trace e1))) as Hres.
  destruct (update (mkEnv target_dir (trace e1))) as [[x|r'] e2];
    cbn [fst snd cwd] in *.
  - unfold bind, raise. discriminate.
  - intros H. injection H as <- <-. split; [apply Hres; reflexivity|].
    exact Hcwd.
Qed.

Lemma clone_raises work_dir target_dir e x e' :
  clone work_dir target_dir e = (inl x, e') ->
  is_git_exception x /\
  match fst (git_clone target_dir e) with
  | inl _ => cwd e' = cwd e
  | inr _ => cwd e' = work_dir
  end.
Proof.
  unfold _clone. unfold bind at 1.
  pose proof (git_raises ["clone"; repo_url ghe; target_dir] 5
                ltac:(lia) e) as Hx.
  pose proof (git_keeps_cwd spawn shlex_quote
                ["clone"; repo_url ghe; target_dir] 5 true e) as Hcwd.
  destruct (git_clone target_dir e) as [[y|out] e1]; cbn [fst snd] in *.
  - intros H. injection H as <- <-. split; [|exact Hcwd].
    eapply failed_is_git_exception, Hx. reflexivity.
  - unfold try_except, set_cwd, modify. unfold bind at 1.
    pose proof (update_raises (mkEnv target_dir (trace e1))) as Hup.
    destruct (update (mkEnv target_dir (trace e1))) as [[y|r'] e2];
      cbn [fst snd] in *; [|discriminate].
    unfold bind, raise. cbn [trace].
    intros H. injection H as <- <-. split; [|reflexivity].
    apply update_failure_is_git_exception, Hup. reflexivity.
Qed.


(** [CloneAction.__call__] by the answers of the filesystem. *)
Lemma clone_action_unfold (e : Env) :
  clone_action e =
  match os_lstat (repo_dir e) with
  | LstatError errno =>
      if negb (errno =? ENOENT) then (inl (OSError errno), e)
      else clone (cwd e) (repo_dir e) e
  | LstatMode st_mode =>
      let removed ev (e' : Env) (failure : option Exn) :=
        match failure with
        | Some x => (inl x, mkEnv (cwd e) (trace e' ++ [ev]))
        | None => clone (cwd e) (repo_dir e)
                    (mkEnv (cwd e) (trace e' ++ [ev]))
        end in
      if negb (S_ISDIR st_mode) then
        removed (EvRemove (repo_dir e)) e (os_remove_error (repo_dir e))
      else if os_path_isdir (os_path_join (repo_dir e) ".git") then
        match update (mkEnv (repo_dir e) (trace e)) with
        | (inr res, e1) => (inr res, e1)
        | (inl _, e1) =>
            removed (EvRmtree (repo_dir e)) e1
                    (shutil_rmtree_error (repo_dir e))
        end
      else
        removed (EvRmtree (repo_dir e)) e
                (shutil_rmtree_error (repo_dir e))
  end.
Proof.
  unfold CloneAction_call, os_remove, shutil_rmtree, try_except,
    set_cwd, emit, modify, ret, raise, gets, bind.
  destruct (os_lstat (repo_dir e)) as [st_mode|errno].
  - destruct (S_ISDIR st_mode); cbn [negb].
    + destruct (os_path_isdir _).
      * cbn [cwd trace].
        destruct (update _) as [[x|res] e1]; [|reflexivity].
        cbn [cwd trace].
        destruct (shutil_rmtree_error _); reflexivity.
      * destruct (shutil_rmtree_error _); reflexivity.
    + destruct (os_remove_error _); reflexivity.
  - destruct (negb _); reflexivity.
Qed.

(** X10.  Whenever [CloneAction.__call__] returns, it returns success and
    the working directory is the repository directory, whichever way the
    repository got there. *)
Theorem clone_action_success (e : Env) (r : StepResult) (e' : Env) :
  clone_action e = (inr r, e') ->
  r = success /\ cwd e' = repo_dir e.
Proof.
  rewrite clone_action_unfold.
  destruct (os_lstat (repo_dir e)) as [st_mode|errno].
  - cbv zeta. destruct (S_ISDIR st_mode); cbn [negb].
    + destruct (os_path_isdir _).
      * pose proof (update_keeps_cwd spawn shlex_quote ghe
                      (mkEnv (repo_dir e) (trace e))) as Hcwd.
        pose proof (update_returns_success
                      (mkEnv (repo_dir e) (trace e))) as Hres.
        destruct (update _) as [[x|res] e1]; cbn [fst snd cwd] in *.
        -- destruct (shutil_rmtree_error _); [discriminate|].
           apply clone_returns.
        -- intros H. injection H as <- <-.
           split; [apply Hres; reflexivity|exact Hcwd].
      * destruct (shutil_rmtree_error _); [discriminate|].
        apply clone_returns.
    + destruct (os_remove_error _); [discriminate|]. apply clone_returns.
  - destruct (negb _); [discriminate|]. apply clone_returns.
Qed.


Lemma clone_emits work_dir target_dir :
  emits no_removal (clone work_dir target_dir).
Proof.
  unfold _clone. apply emits_bind.
  - eapply emits_weaken; [|apply git_emits]. apply runs_only_no_removal.
  - intros _. apply emits_try_except.
    + apply emits_bind; [apply emits_set_cwd|intros _].
      eapply emits_weaken; [|apply update_emits].
      apply not_subcommand_no_removal.
    + intros x. apply emits_bind; [apply emits_set_cwd|intros _].
      apply emits_raise.
Qed.

(** X12.  [CloneAction.__call__] deletes at most one thing, and only the
    target path itself: the file when the path is no directory, the tree
    when the path is a directory without [.git] or a repository whose
    update failed, and nothing when the path is absent, when [lstat]
    fails, or when the repository updates in place. *)
Theorem clone_action_removals (e : Env) :
  exists new,
    trace (snd (clone_action e)) = trace e ++ new /\
    removals_of new =
      match os_lstat (repo_dir e) with
      | LstatError _ => []
      | LstatMode st_mode =>
          if negb (S_ISDIR st_mode) then [EvRemove (repo_dir e)]
          else if os_path_isdir (os_path_join (repo_dir e) ".git") then
            match fst (update (mkEnv (repo_dir e) (trace e))) with
            | inr _ => []
            | inl _ => [EvRmtree (repo_dir e)]
            end
          else [EvRmtree (repo_dir e)]
      end.
Proof.
  assert (Hclone : forall ev pre,
    removals_of pre = [] ->
    exists new,
      trace (snd (clone (cwd e) (repo_dir e)
                    (mkEnv (cwd e) ((trace e ++ pre) ++ [ev])))) =
        trace e ++ new /\
      removals_of new = removals_of [ev]).
  { intros ev pre Hpre.
    destruct (clone_emits (cwd e) (repo_dir e)
                (mkEnv (cwd e) ((trace e ++ pre) ++ [ev])))
      as [rest [Ht HF]].
    exists (pre ++ [ev] ++ rest). split.
    - rewrite Ht. cbn [trace]. rewrite <- !app_assoc. reflexivity.
    - rewrite !removals_of_app, Hpre.
      rewrite (removals_of_no_removal _ HF), app_nil_r. reflexivity. }
  assert (Hremoved : forall ev pre failure,
    removals_of pre = [] ->
    exists new,
      trace (snd (match failure with
                  | Some x => (inl x, mkEnv (cwd e) ((trace e ++ pre) ++ [ev]))
                  | None => clone (cwd e) (repo_dir e)
                              (mkEnv (cwd e) ((trace e ++ pre) ++ [ev]))
                  end)) = trace e ++ new /\
      removals_of new = removals_of [ev]).
  { intros ev pre [x|] Hpre; [|apply Hclone; exact Hpre].
    exists (pre ++ [ev]). cbn [snd trace]. split.
    - rewrite <- app_assoc. reflexivity.
    - rewrite removals_of_app, Hpre. reflexivity. }
  rewrite clone_action_unfold.
  destruct (os_lstat (repo_dir e)) as [st_mode|errno].
  - cbv zeta. destruct (S_ISDIR st_mode); cbn [negb].
    + destruct (os_path_isdir _).
      * destruct (update_emits spawn shlex_quote ghe
                    (mkEnv (repo_dir e) (trace e))) as [upd [Ht HF]].
        cbn [trace] in Ht.
        destruct (update _) as [[x|res] e1]; cbn [fst snd] in *.
        -- rewrite Ht.
           apply (Hremoved (EvRmtree (repo_dir e)) upd).
           eapply removals_of_not_subcommand, HF.
        -- exists upd. split; [exact Ht|].
           eapply removals_of_not_subcommand, HF.
      * destruct (Hremoved (EvRmtree (repo_dir e)) []
                    (shutil_rmtree_error (repo_dir e)) eq_refl)
          as [new [Ht Hr]].
        rewrite app_nil_r in Ht. exists new. split; assumption.
    + destruct (Hremoved (EvRemove (repo_dir e)) []
                  (os_remove_error (repo_dir e)) eq_refl)
        as [new [Ht Hr]].
      rewrite app_nil_r in Ht. exists new. split; assumption.
  - destruct (negb _).
    + exists []. cbn [snd]. rewrite app_nil_r. auto.
    + destruct (clone_emits (cwd e) (repo_dir e) e) as [rest [Ht HF]].
      exists rest. split; [exact Ht|].
      apply removals_of_no_removal, HF.
Qed.

End ActionsMore.

(** ** URL selection *)

(** X13.  [_select_url] never fails: the three tokens give the URL of
    that kind of the repository object (every attribute [URL_ATTR] names
    exists), and any other string is returned as it is. *)
Theorem select_url_total (repo_url : string) (repo_obj : Repository) :
  _select_url repo_url repo_obj =
    Some (if String.eqb repo_url "ssh" then ssh_url repo_obj
          else if String.eqb repo_url "git" then git_url repo_obj
          else if String.eqb repo_url "https" then clone_url repo_obj
          else repo_url).
Proof.
  unfold _select_url, URL_ATTR. cbn [table_get].
  rewrite (String.eqb_sym "ssh"), (String.eqb_sym "git"),
    (String.eqb_sym "https").
  destruct (String.eqb repo_url "ssh"); [reflexivity|].
  destruct (String.eqb repo_url "git"); [reflexivity|].
  destruct (String.eqb repo_url "https"); reflexivity.
Qed.

(** X14.  When [--github-change-repo] is absent or empty, [activate]
    selects the change URL by the value of [--github-repo]: from the head
    repository for a token, and, for a literal URL, the very URL the base
    is cloned from, whatever the head repository is. *)
Theorem change_url_defaults_to_repo (github_repo : string)
    (github_change_repo : option string) (base_repo head_repo : Repository) :
  opt_truthy github_change_repo = false ->
  snd (activate_urls github_repo github_change_repo base_repo head_repo) =
    _select_url github_repo head_repo /\
  (table_get URL_ATTR github_repo = None ->
   activate_urls github_repo github_change_repo base_repo head_repo =
     (Some github_repo, Some github_repo)).
Proof.
  intros Hfalsy. unfold activate_urls. rewrite Hfalsy. cbn [snd].
  split; [reflexivity|].
  intros Hverbatim. unfold _select_url. rewrite Hverbatim. reflexivity.
Qed.

(** ** The pull request designation *)

Lemma bytes_in_char_cons (sep c : ascii) (s : string) :
  bytes_in (String sep EmptyString) (String c s) =
  Ascii.eqb c sep || bytes_in (String sep EmptyString) s.
Proof.
  cbn [bytes_in String.prefix].
  destruct (ascii_dec sep c) as [->|Hne].
  - rewrite Ascii.eqb_refl. destruct s; reflexivity.
  - destruct (Ascii.eqb_spec c sep); [congruence|reflexivity].
Qed.

Lemma str_partition_without (sep : ascii) (s : string) :
  bytes_in (String sep EmptyString) s = false ->
  str_partition sep s = (s, EmptyString, EmptyString).
Proof.
  induction s as [|c s IH]; [reflexivity|].
  rewrite bytes_in_char_cons. intros H.
  apply orb_false_iff in H. destruct H as [Hc Hs].
  cbn [str_partition]. rewrite Hc, (IH Hs). reflexivity.
Qed.

Lemma str_partition_at (sep : ascii) (head tail : string) :
  bytes_in (String sep EmptyString) head = false ->
  str_partition sep (head ++ String sep tail) =
    (head, String sep EmptyString, tail).
Proof.
  induction head as [|c head IH].
  - intros _. cbn. rewrite Ascii.eqb_refl. reflexivity.
  - rewrite bytes_in_char_cons. intros H.
    apply orb_false_iff in H. destruct H as [Hc Hs].
    cbn. rewrite Hc, (IH Hs). reflexivity.
Qed.

Lemma all_digits_of_uint (u : Decimal.uint) :
  all_digits (NilEmpty.string_of_uint u) = true.
Proof. induction u; cbn; auto. Qed.

Lemma isdigit_of_uint (u : Decimal.uint) :
  u <> Decimal.Nil -> isdigit (NilZero.string_of_uint u) = true.
Proof.
  intros Hu. unfold isdigit.
  destruct u; try contradiction; cbn [NilZero.string_of_uint];
    rewrite all_digits_of_uint; reflexivity.
Qed.

Lemma fmt_d_nonneg (n : Z) :
  0 <= n ->
  exists u, u <> Decimal.Nil /\ fmt_d n = NilZero.string_of_uint u /\
            Z.of_uint u = n.
Proof.
  intros Hn. unfold fmt_d. destruct n as [|p|p]; [| |lia].
  - exists (Decimal.D0 Decimal.Nil). repeat split. discriminate.
  - exists (Pos.to_uint p). split; [|split].
    + apply DecimalPos.Unsigned.to_uint_nonnil.
    + reflexivity.
    + unfold Z.of_uint. rewrite DecimalPos.Unsigned.of_to. reflexivity.
Qed.

(** [int] reads back what ['%d'] wrote, and [isdigit] accepts it. *)
Lemma py_int_fmt_d (n : Z) :
  0 <= n -> isdigit (fmt_d n) = true /\ py_int (fmt_d n) = Some n.
Proof.
  intros Hn. destruct (fmt_d_nonneg n Hn) as [u [Hu [-> <-]]].
  split; [apply isdigit_of_uint, Hu|].
  unfold py_int. rewrite NilZero.usu by exact Hu. reflexivity.
Qed.

Lemma uint_of_digits (s : string) :
  all_digits s = true -> exists u, NilEmpty.uint_of_string s = Some u.
Proof.
  induction s as [|c s IH]; [intros _; eexists; reflexivity|].
  cbn [all_digits NilEmpty.uint_of_string]. intros H.
  apply andb_true_iff in H. destruct H as [Hc Hs].
  destruct (IH Hs) as [u ->].
  destruct c as [[|] [|] [|] [|] [|] [|] [|] [|]];
    try discriminate Hc; eexists; reflexivity.
Qed.

(** After [isdigit], [int] cannot fail and gives no negative number. *)
Lemma py_int_of_digits (s : string) :
  isdigit s = true -> exists n, py_int s = Some n /\ 0 <= n.
Proof.
  unfold isdigit, py_int. intros H.
  apply andb_true_iff in H. destruct H as [Hne Hd].
  destruct (uint_of_digits s Hd) as [u Hu].
  destruct s as [|c s]; [discriminate Hne|].
  unfold NilZero.uint_of_string. rewrite Hu.
  exists (Z.of_uint u). split; [reflexivity|].
  unfold Z.of_uint. lia.
Qed.

Section DesignateFacts.

Variable json_loads : string -> option PyVal.

Local Notation designate := (pull_designation json_loads).

(** X15.  The designation reads back the display form ['%s#%d'] that
    [activate] publishes as [github_pull]: for a repository name without
    ['#'] and a number that is not negative, the text [repo#number] (when
    it is no JSON document) designates the pull request [number] of
    [repo], and of [user/repo] when the name holds no ['/']. *)
Theorem designation_round_trip (github_user repo : string) (number : Z) :
  0 <= number ->
  bytes_in "#" repo = false ->
  json_loads (repo ++ "#" ++ fmt_d number) = None ->
  designate github_user (Some (repo ++ "#" ++ fmt_d number)%string) =
    LookupPull (if bytes_in "/" repo then repo
                else (github_user ++ "/" ++ repo)%string)
               number.
Proof.
  intros Hn Hrepo Hjson. unfold pull_designation.
  assert (Htruthy : truthy (PyStr (repo ++ "#" ++ fmt_d number)) = true).
  { cbn [truthy]. destruct repo; reflexivity. }
  rewrite Htruthy, Hjson. cbn [negb].
  change ("#" ++ fmt_d number)%string with (String "#" (fmt_d number)).
  rewrite (str_partition_at "#" repo (fmt_d number) Hrepo).
  destruct (py_int_fmt_d number Hn) as [Hdigit Hint].
  assert (Hnonempty : truthy (PyStr (fmt_d number)) = true).
  { cbn [truthy]. unfold isdigit in Hdigit.
    apply andb_true_iff in Hdigit. exact (proj1 Hdigit). }
  rewrite Hnonempty, Hdigit, Hint. cbn [negb orb].
  destruct (bytes_in "/" repo); reflexivity.
Qed.


End DesignateFacts.

(** ** The password *)

Section PasswordFacts.

Variable keyring_get_password : string -> string -> option string.
Variable getpass_getpass : string -> string.

Local Notation resolve :=
  (resolve_password keyring_get_password getpass_getpass).


End PasswordFacts.

(** ** More on the final status *)

Section ActivateMore.

Variable json_loads : string -> option PyVal.

Local Notation final := (activate_final_status json_loads).

(** The discrete override of a field, or [default] when it is absent or
    empty. *)
Local Notation pick o default :=
  (if opt_truthy o then py_of_opt o else default).

(** X18.  Whatever the combined override document holds, a discrete
    override that is given and not empty decides its field of the final
    status. *)
Theorem discrete_override_wins (args : Args) (fs : StatusDict) :
  final args = inr fs ->
  (forall s, github_override_status args = Some s -> s <> EmptyString ->
             status fs = PyStr s) /\
  (forall s, github_override_text args = Some s -> s <> EmptyString ->
             text fs = PyStr s) /\
  (forall s, github_override_url args = Some s -> s <> EmptyString ->
             url fs = PyStr s).
Proof.
  assert (Htruthy : forall s, s <> EmptyString -> opt_truthy (Some s) = true).
  { intros s Hs. cbn. destruct (String.eqb_spec s EmptyString);
      [contradiction|reflexivity]. }
  unfold activate_final_status.
  destruct (match github_override args with
            | Some _ => _
            | None => _
            end) as [x|fs0]; [discriminate|].
  intros H. injection H as <-.
  repeat split; intros s Hs Hne; rewrite Hs, (Htruthy s Hne).
  - destruct (opt_truthy (github_override_text args));
      destruct (opt_truthy (github_override_url args)); reflexivity.
  - destruct (opt_truthy (github_override_url args)); reflexivity.
  - reflexivity.
Qed.

(** X19.  A combined override that is absent, empty or no JSON document
    changes nothing: the final status is "success", "Tests passed!" and
    the status URL, each replaced by its discrete override when that is
    given and not empty. *)
Theorem override_ignored (args : Args) :
  github_override args = None \/
  github_override args = Some EmptyString \/
  (exists document, github_override args = Some document /\
                    json_loads document = None) ->
  final args =
    inr (mkStatus
           (pick (github_override_status args) (PyStr "success"))
           (pick (github_override_text args) (PyStr "Tests passed!"))
           (pick (github_override_url args)
                 (py_of_opt (github_status_url args)))).
Proof.
  intros H. unfold activate_final_status.
  assert (Hover :
    match github_override args with
    | Some document =>
        if truthy (PyStr document)
        then match json_loads document with
             | Some override_raw =>
                 apply_override override_raw
                   (mkStatus (PyStr "success") (PyStr "Tests passed!")
                             (py_of_opt (github_status_url args)))
             | None =>
                 inr (mkStatus (PyStr "success") (PyStr "Tests passed!")
                               (py_of_opt (github_status_url args)))
             end
        else inr (mkStatus (PyStr "success") (PyStr "Tests passed!")
                           (py_of_opt (github_status_url args)))
    | None => inr (mkStatus (PyStr "success") (PyStr "Tests passed!")
                            (py_of_opt (github_status_url args)))
    end = inr (mkStatus (PyStr "success") (PyStr "Tests passed!")
                        (py_of_opt (github_status_url args)))).
  { destruct H as [-> | [-> | [document [-> Hjson]]]]; try reflexivity.
    rewrite Hjson. destruct (truthy _); reflexivity. }
  rewrite Hover. cbn [status text url].
  destruct (opt_truthy (github_override_status args));
    destruct (opt_truthy (github_override_text args));
    destruct (opt_truthy (github_override_url args)); reflexivity.
Qed.

(** X20.  A combined override that is a JSON object sets exactly the
    fields whose keys it holds, to any JSON value; a missing key leaves
    the default and other keys are ignored.  The discrete overrides then
    apply on top. *)
Theorem override_object (args : Args) (document : string)
    (d : list (string * PyVal)) :
  github_override args = Some document ->
  document <> EmptyString ->
  json_loads document = Some (PyDict d) ->
  final args =
    inr (mkStatus
           (pick (github_override_status args)
                 (or_default (dict_get d "status") (PyStr "success")))
           (pick (github_override_text args)
                 (or_default (dict_get d "text") (PyStr "Tests passed!")))
           (pick (github_override_url args)
                 (or_default (dict_get d "url")
                             (py_of_opt (github_status_url args))))).
Proof.
  intros Hdoc Hne Hjson. unfold activate_final_status.
  rewrite Hdoc.
  assert (Htruthy : truthy (PyStr document) = true).
  { simpl. destruct (String.eqb_spec document EmptyString);
      [contradiction|reflexivity]. }
  rewrite Htruthy, Hjson. unfold apply_override, override_lookup.
  cbn [status text url].
  destruct (opt_truthy (github_override_status args));
    destruct (opt_truthy (github_override_text args));
    destruct (opt_truthy (github_override_url args)); reflexivity.
Qed.

(** X21.  A combined override that parses to a JSON number, boolean or
    null makes [activate] raise [TypeError]: only the [ValueError] of a
    malformed document is caught, and no discrete override prevents it. *)
Theorem override_scalar_raises (args : Args) (document : string)
    (v : PyVal) :
  github_override args = Some document ->
  document <> EmptyString ->
  json_loads document = Some v ->
  match v with
  | PyNone => True
  | PyBool _ => True
  | PyInt _ => True
  | PyFloat _ _ => True
  | _ => False
  end ->
  final args = inl TypeError.
Proof.
  intros Hdoc Hne Hjson Hscalar. unfold activate_final_status.
  rewrite Hdoc.
  assert (Htruthy : truthy (PyStr document) = true).
  { simpl. destruct (String.eqb_spec document EmptyString);
      [contradiction|reflexivity]. }
  rewrite Htruthy, Hjson.
  destruct v; try contradiction; reflexivity.
Qed.

End ActivateMore.

(** ** More on the status reports *)

Section ExtensionMore.

Variable create_status : list ApiEvent -> StatusCall -> option Exn.
Variable result_bool : StepResult -> bool.
Variable state_str : State -> string.

Local Notation set_status := (_set_status create_status).
Local Notation on_post_step := (post_step create_status result_bool state_str).
Local Notation on_finalize := (finalize create_status).
Local Notation callback :=
  (run_callback create_status result_bool state_str).
Local Notation callbacks :=
  (run_callbacks create_status result_bool state_str).
Local Notation status_url_of st := (py_of_opt (status_url (self st))).

(** X22.  What [_set_status] sends and what it records.  The request
    carries the status as it is, and the text and the url only when they
    are true values: one that is [None] or empty goes out as [NotSet].
    When the request goes through, [last_status] holds the three
    arguments as they were given, an empty text or url included. *)
Theorem set_status_sent_and_recorded (s t u : PyVal) (st : GhState) :
  exists c outcome,
    api_log (snd (set_status s t u st)) =
      api_log st ++ [mkApiEvent c outcome] /\
    outcome = create_status (api_log st) c /\
    call_state c = s /\
    call_description c = (if truthy t then Given t else NotSet) /\
    call_target_url c = (if truthy u then Given u else NotSet) /\
    (outcome = None ->
     last_status (self (snd (set_status s t u st))) =
       Some (mkStatus s t u)).
Proof.
  exists (wire (mkStatus s t u)),
         (create_status (api_log st) (wire (mkStatus s t u))).
  rewrite set_status_run.
  destruct (create_status _ _) eqn:Hout; cbn [snd api_log self];
    repeat split; try reflexivity.
  discriminate.
Qed.

Lemma str_nonempty_truthy (m : string) :
  m <> EmptyString -> truthy (PyStr m) = true.
Proof.
  intros Hm. cbn. destruct (String.eqb_spec m EmptyString);
    [contradiction|reflexivity].
Qed.

Lemma truthy_str_nonempty (m : string) :
  truthy (PyStr m) = true -> m <> EmptyString.
Proof. intros H ->. discriminate H. Qed.

(** X23.  [post_step] reports nothing for a result that is true and
    changes nothing then.  For a result that is false it makes exactly
    one request: with the status "failure" when the state is the failure
    state and "error" for any other state, with the status URL, and with
    a description that is never empty, the message of the result when it
    has one that is not empty. *)
Theorem post_step_report (step : Step) (idx : nat) (result : StepResult)
    (st : GhState) :
  if result_bool result then on_post_step step idx result st = (inr tt, st)
  else
    exists token message,
      api_log (snd (on_post_step step idx result st)) =
        api_log st ++
        [mkApiEvent
           (mkCall (PyStr token) (or_NotSet (status_url_of st))
                   (Given (PyStr message)))
           (create_status (api_log st)
              (mkCall (PyStr token) (or_NotSet (status_url_of st))
                      (Given (PyStr message))))] /\
      token = (match state result with
               | FAILURE => "failure"
               | _ => "error"
               end) /\
      message <> EmptyString /\
      (forall m, msg result = Some m -> m <> EmptyString -> message = m).
Proof.
  unfold post_step. destruct (result_bool result); cbn [negb];
    [reflexivity|].
  assert (Hdefault : forall token (message : option string) (default : string),
    default <> EmptyString ->
    exists m,
      py_of_opt (if negb (opt_truthy message) then Some default else message)
        = PyStr m /\
      m <> EmptyString /\
      (forall m0, message = Some m0 -> m0 <> EmptyString -> m = m0) /\
      api_log (snd ((su <- gets (fun s => status_url (self s)) ;;
                     set_status (PyStr token)
                       (py_of_opt (if negb (opt_truthy message)
                                   then Some default else message))
                       (py_of_opt su)) st)) =
        api_log st ++
        [mkApiEvent
           (mkCall (PyStr token) (or_NotSet (status_url_of st))
                   (Given (PyStr m)))
           (create_status (api_log st)
              (mkCall (PyStr token) (or_NotSet (status_url_of st))
                      (Given (PyStr m))))]).
  { intros token message default Hd.
    assert (Hm : exists m,
      (if negb (opt_truthy message) then Some default else message) = Some m
      /\ m <> EmptyString /\
      (forall m0, message = Some m0 -> m0 <> EmptyString -> m = m0)).
    { destruct message as [m0|]; unfold opt_truthy, py_of_opt.
      - destruct (truthy (PyStr m0)) eqn:Ht; cbn [negb].
        + exists m0. split; [reflexivity|].
          split; [apply truthy_str_nonempty, Ht|].
          intros m1 H _. injection H as <-. reflexivity.
        + exists default. split; [reflexivity|]. split; [exact Hd|].
          intros m1 H Hne. injection H as <-.
          rewrite (str_nonempty_truthy m0 Hne) in Ht. discriminate Ht.
      - exists default. split; [reflexivity|]. split; [exact Hd|].
        intros m1 H. discriminate H. }
    destruct Hm as [m [-> [Hne Hkeep]]].
    exists m. split; [reflexivity|]. split; [exact Hne|].
    split; [exact Hkeep|].
    unfold bind, gets. cbv beta iota. rewrite set_status_run.
    unfold wire. cbn [status text url py_of_opt].
    assert (Hor : or_NotSet (PyStr m) = Given (PyStr m))
      by (unfold or_NotSet; rewrite (str_nonempty_truthy m Hne);
          reflexivity).
    rewrite !Hor.
    destruct (create_status _ _); reflexivity. }
  destruct (state result) eqn:Hstate.
  - destruct (Hdefault "error" (msg result)
                ("Unknown timid state " ++ dquote ++ state_str SKIPPED ++
                 dquote ++ " during step: " ++ name step)%string)
      as [m [Hm [Hne [Hkeep Hlog]]]]; [discriminate|].
    exists "error", m. repeat split; assumption.
  - destruct (Hdefault "error" (msg result)
                ("Unknown timid state " ++ dquote ++ state_str SUCCESS ++
                 dquote ++ " during step: " ++ name step)%string)
      as [m [Hm [Hne [Hkeep Hlog]]]]; [discriminate|].
    exists "error", m. repeat split; assumption.
  - destruct (Hdefault "failure" (msg result)
                ("Failed: " ++ name step)%string)
      as [m [Hm [Hne [Hkeep Hlog]]]]; [discriminate|].
    exists "failure", m. repeat split; assumption.
  - destruct (Hdefault "error" (msg result)
                ("Error: " ++ name step)%string)
      as [m [Hm [Hne [Hkeep Hlog]]]]; [discriminate|].
    exists "error", m. repeat split; assumption.
  - destruct (Hdefault "error" (msg result)
                ("Unknown timid state " ++ dquote ++
                 state_str (OtherState repr) ++
                 dquote ++ " during step: " ++ name step)%string)
      as [m [Hm [Hne [Hkeep Hlog]]]]; [discriminate|].
    exists "error", m. repeat split; assumption.
Qed.

(** X24.  [finalize] never changes the result of the run: whenever it
    returns, it returns the result it was given; and it raises nothing
    but what a status request raised. *)
Theorem finalize_returns_result (result : Result) (st : GhState) :
  match fst (on_finalize result st) with
  | inr r => r = result
  | inl x => exists c, create_status (api_log st) c = Some x
  end.
Proof.
  unfold finalize, bind, gets, ret.
  destruct result as [|str|str]; cbv beta iota.
  - rewrite set_status_run.
    destruct (create_status _ _) eqn:Hout; cbn [fst]; [|reflexivity].
    eexists. exact Hout.
  - rewrite set_status_run.
    destruct (create_status _ _) eqn:Hout; cbn [fst]; [|reflexivity].
    eexists. exact Hout.
  - destruct (last_status (self st)) as [d|]; [|reflexivity].
    destruct (str_equals "pending" (status d)); [|reflexivity].
    rewrite set_status_run.
    destruct (create_status _ _) eqn:Hout; cbn [fst]; [|reflexivity].
    eexists. exact Hout.
Qed.

(** X25.  [finalize] with a result other than [None] never leaves the
    pull request pending: whenever it returns, the last status, if there
    is one, is not "pending". *)
Theorem finalize_clears_pending (result : Result) (st : GhState)
    (r : Result) :
  result <> ResNone ->
  fst (on_finalize result st) = inr r ->
  forall d, last_status (self (snd (on_finalize result st))) = Some d ->
            str_equals "pending" (status d) = false.
Proof.
  intros Hres. unfold finalize, bind, gets, ret.
  destruct result as [|str|str]; [contradiction| |]; cbv beta iota.
  - rewrite set_status_run.
    destruct (create_status _ _); cbn [fst snd self]; [discriminate|].
    intros _ d Hd. cbn in Hd. injection Hd as <-. reflexivity.
  - destruct (last_status (self st)) as [d0|] eqn:Hlast.
    + destruct (str_equals "pending" (status d0)) eqn:Hpending.
      * rewrite set_status_run.
        destruct (create_status _ _); cbn [fst snd self]; [discriminate|].
        intros _ d Hd. cbn in Hd. injection Hd as <-. reflexivity.
      * cbn [fst snd]. intros _ d Hd.
        rewrite Hlast in Hd. injection Hd as <-. exact Hpending.
    + cbn [fst snd]. intros _ d Hd. rewrite Hlast in Hd.
      discriminate Hd.
Qed.

(** X26.  A run of callbacks only appends to the requests made, at most
    one request for each callback, and never changes the final status or
    the status URL of the extension. *)
Theorem run_callbacks_requests (cbs : list Callback) (st : GhState) :
  exists new,
    api_log (snd (callbacks cbs st)) = api_log st ++ new /\
    (List.length new <= List.length cbs)%nat /\
    final_status (self (snd (callbacks cbs st))) = final_status (self st) /\
    status_url (self (snd (callbacks cbs st))) = status_url (self st).
Proof.
  assert (Hone : forall cb st0,
    exists new,
      api_log (snd (callback cb st0)) = api_log st0 ++ new /\
      (List.length new <= 1)%nat /\
      final_status (self (snd (callback cb st0))) = final_status (self st0) /\
      status_url (self (snd (callback cb st0))) = status_url (self st0)).
  { intros cb st0.
    destruct (run_callback_cases create_status result_bool state_str cb st0)
      as [-> | [d [Hlog Hd]]].
    - exists []. cbn [snd]. rewrite app_nil_r. cbn. auto.
    - eexists. split; [exact Hlog|]. split; [cbn; lia|].
      destruct (create_status _ _); destruct Hd as [_ ->]; auto. }
  revert st. induction cbs as [|cb cbs IH]; intros st.
  - exists []. cbn. rewrite app_nil_r. auto.
  - cbn [run_callbacks]. unfold bind.
    destruct (Hone cb st) as [n1 [Hl1 [Hn1 [Hf1 Hu1]]]].
    destruct (callback cb st) as [[x|[]] st1]; cbn [snd] in *.
    + exists n1. repeat split; try assumption. cbn [List.length]. lia.
    + destruct (IH st1) as [n2 [Hl2 [Hn2 [Hf2 Hu2]]]].
      exists (n1 ++ n2). split; [|split; [|split]].
      * rewrite Hl2, Hl1, app_assoc. reflexivity.
      * rewrite List.length_app. cbn [List.length]. lia.
      * congruence.
      * congruence.
Qed.

End ExtensionMore.

(** ** The further theorems at sample runs *)

Lemma git_no_retry_without_marker_witness :
  _git failing_spawn plain_quote ["fetch"; "origin"; "branch"] 5 true
    work_env =
    (inl (GitException
            ("Git command " ++ dquote ++ "git fetch origin branch" ++
             dquote ++ " returned 128")),
     mkEnv "/work/dir" [EvCall ["git"; "fetch"; "origin"; "branch"]]) /\
  sleeps_of
    (trace (snd (_git failing_spawn plain_quote ["fetch"; "origin"; "branch"]
                   5 true work_env))) = [].
Proof.
  apply (git_no_retry_without_marker failing_spawn plain_quote
           ["fetch"; "origin"; "branch"] 5 true work_env).
  - lia.
  - right. split; reflexivity.
Defined.

Lemma git_without_tries_witness :
  _git ok_spawn plain_quote ["status"] 0 false work_env =
    (inl (UnboundLocalError "stdout"), work_env).
Proof.
  apply (git_without_tries ok_spawn plain_quote ["status"] 0 false work_env).
  lia.
Defined.

Lemma git_run_shape_witness :
  exists k, (1 <= k <= 5)%nat /\
    _git flaky_spawn plain_quote ["fetch"] 5 true work_env =
      (git_outcome plain_quote ["git"; "fetch"] true
         (flaky_spawn (k - 1) ["git"; "fetch"]),
       mkEnv "/work/dir" (attempt_events ["git"; "fetch"] k)) /\
    (forall i, (S i < k)%nat ->
       ssh_failed (flaky_spawn i ["git"; "fetch"]) = true) /\
    ((k < 5)%nat -> ssh_failed (flaky_spawn (k - 1) ["git"; "fetch"]) = false).
Proof.
  apply (git_run_shape flaky_spawn plain_quote ["fetch"] 5 true work_env).
  lia.
Defined.

Lemma git_total_sleep_bound_witness :
  0 <= total_sleep
         (trace (snd (_git dead_spawn plain_quote ["fetch"] 5 true work_env)))
    <= 0 + (2 ^ (5 - 1) - 1).
Proof.
  apply (git_total_sleep_bound dead_spawn plain_quote ["fetch"] 5 true
           work_env).
  lia.
Defined.

Lemma update_runs_all_witness :
  _update ok_spawn plain_quote sample_ghe work_env =
    (inr (mkStepResult SUCCESS None),
     mkEnv "/work/dir"
       [EvCall ["git"; "remote"; "set-url"; "origin"; "repo://url"];
        EvCall ["git"; "rebase"; "--abort"];
        EvCall ["git"; "checkout"; "-f"; "branch"];
        EvCall ["git"; "reset"; "--hard"; "origin/branch"];
        EvCall ["git"; "clean"; "-fdx"];
        EvCall ["git"; "fetch"; "origin"; "branch"];
        EvCall ["git"; "checkout"; "branch"]]).
Proof.
  apply (update_runs_all ok_spawn plain_quote sample_ghe work_env).
  intros i Hi. reflexivity.
Defined.

Lemma clone_action_success_witness :
  mkStepResult SUCCESS None = mkStepResult SUCCESS None /\
  cwd (snd (CloneAction_call ok_spawn plain_quote lstat_file isdir_no
              removal_works removal_works sample_ghe work_env)) =
    "/work/dir/repo".
Proof.
  apply (clone_action_success ok_spawn plain_quote lstat_file isdir_no
           removal_works removal_works sample_ghe work_env).
  vm_compute. reflexivity.
Defined.


Lemma change_url_defaults_to_repo_witness :
  snd (activate_urls "ssh" (Some EmptyString) sample_base_repo
         sample_head_repo) = Some "git@github.com:fork/repo.git" /\
  (table_get URL_ATTR "ssh" = None ->
   activate_urls "ssh" (Some EmptyString) sample_base_repo sample_head_repo =
     (Some "ssh", Some "ssh")).
Proof.
  apply (change_url_defaults_to_repo "ssh" (Some EmptyString)
           sample_base_repo sample_head_repo).
  reflexivity.
Defined.

Lemma designation_round_trip_witness :
  pull_designation no_json "example" (Some "repo#5") =
    LookupPull "example/repo" 5.
Proof.
  apply (designation_round_trip no_json "example" "repo" 5).
  - lia.
  - reflexivity.
  - reflexivity.
Defined.


Lemma discrete_override_wins_witness :
  (forall s, Some "status2" = Some s -> s <> EmptyString ->
             PyStr "status2" = PyStr s) /\
  (forall s, @None string = Some s -> s <> EmptyString ->
             PyStr "t" = PyStr s) /\
  (forall s, @None string = Some s -> s <> EmptyString ->
             PyStr "u" = PyStr s).
Proof.
  apply (discrete_override_wins sample_json_loads sample_args
           (mkStatus (PyStr "status2") (PyStr "t") (PyStr "u"))).
  reflexivity.
Defined.

Lemma override_ignored_witness :
  activate_final_status no_json plain_args =
    inr (mkStatus (PyStr "success") (PyStr "All fine")
                  (PyStr "https://ci.example.com/run")).
Proof.
  apply (override_ignored no_json plain_args).
  left. reflexivity.
Defined.

Lemma override_object_witness :
  activate_final_status sample_json_loads sample_args =
    inr (mkStatus (PyStr "status2") (PyStr "t") (PyStr "u")).
Proof.
  apply (override_object sample_json_loads sample_args override_document
           [("status", PyStr "override"); ("text", PyStr "t");
            ("url", PyStr "u")]).
  - reflexivity.
  - intros H. discriminate H.
  - reflexivity.
Defined.

Lemma override_scalar_raises_witness :
  activate_final_status five_json five_args = inl TypeError.
Proof.
  apply (override_scalar_raises five_json five_args "5" (PyInt 5)).
  - reflexivity.
  - intros H. discriminate H.
  - reflexivity.
  - exact I.
Defined.

Lemma finalize_clears_pending_witness :
  str_equals "pending"
    (status (mkStatus (PyStr "failure") (PyStr "Testing failed: boom")
                      (PyStr "https://ci.example.com/run"))) = false.
Proof.
  apply (finalize_clears_pending api_accepts (ResOther "boom")
           (snd (pre_step api_accepts (mkStep "A") 0 fresh_state))
           (ResOther "boom")).
  - intros H. discriminate H.
  - reflexivity.
  - reflexivity.
Defined.
